(** * debug_stl: name simplification and STL container inspection

    A shallow embedding of [source/lib/debug_stl.cpp] and the properties of
    its two halves:

    - [stl_simplify_name], the in-place rewrite of a C string, modelled on a
      byte buffer with explicit [src]/[dst] offsets, so that every read and
      every write of the C function is a read or a write of the model;
    - the container adapters ([Any_vector], [Any_deque], [Any_map], ...),
      [get_container_info] and the dispatcher [stl_get_container_info],
      modelled over the observations the adapters make of the inspected
      object and of the memory behind it. *)

From Stdlib Require Import ZArith List Ascii String Bool Lia.
From stdpp Require Import base list.
Import ListNotations.
Open Scope Z_scope.

(* ===================================================================== *)
(** * Part I: definitions                                                 *)
(* ===================================================================== *)

(** ** Outcomes of a C computation

    [Done] is a normal return.  [Fault] is behaviour the C standard leaves
    undefined or a trap: an access outside the modelled memory, a division
    by zero, a signed overflow, a failed [assert].  [OutOfFuel] is only an
    artefact of bounding loops; the theorems show where it cannot occur. *)

Inductive fault : Type :=
| OutOfBounds
| DivisionByZero
| SignedOverflow
| AssertionFailed.

Inductive outcome (A : Type) : Type :=
| Done (a : A)
| Fault (f : fault)
| OutOfFuel.

Arguments Done {A} a.
Arguments Fault {A} f.
Arguments OutOfFuel {A}.

Definition bind {A B : Type} (x : outcome A) (k : A -> outcome B) : outcome B :=
  match x with
  | Done a => k a
  | Fault f => Fault f
  | OutOfFuel => OutOfFuel
  end.

Notation "'do' x <- e ; k" := (bind e (fun x => k))
  (at level 10, x name, e at level 100, k at level 200).

(* ===================================================================== *)
(** ** The name simplifier                                                *)
(* ===================================================================== *)

(** The memory [name] points into: [name[i]] is element [i] of the list.
    The C string is the prefix up to the first NUL; what follows it is
    whatever the caller's buffer holds there. *)
Abbreviation buffer := (list ascii).

Definition NUL : ascii := "000"%char.

Definition chars (s : string) : list ascii := list_ascii_of_string s.

(** [*(name + i)] *)
Definition load (m : buffer) (i : Z) : outcome ascii :=
  if i <? 0 then Fault OutOfBounds
  else match m !! Z.to_nat i with
       | Some c => Done c
       | None => Fault OutOfBounds
       end.

(** [*(name + i) = c] *)
Definition store (m : buffer) (i : Z) (c : ascii) : outcome buffer :=
  if (0 <=? i) && (i <? Z.of_nat (length m))
  then Done (<[Z.to_nat i := c]> m)
  else Fault OutOfBounds.

(** [!strncmp(name + i, what, sizeof(what)-1)]: the characters are compared
    one at a time and the comparison stops at the first difference; no
    pattern contains a NUL, so it never reads beyond a terminator. *)
Fixpoint strncmp_eq (m : buffer) (i : Z) (what : list ascii) : outcome bool :=
  match what with
  | [] => Done true
  | w :: ws =>
      do c <- load m i;
      if Ascii.eqb c w then strncmp_eq m (i + 1) ws else Done false
  end.

(** [strcpy(name + i, with)]: the characters of [with], then a NUL. *)
Fixpoint strcpy (m : buffer) (i : Z) (w : list ascii) : outcome buffer :=
  match w with
  | [] => store m i NUL
  | c :: cs => do m' <- store m i c; strcpy m' (i + 1) cs
  end.

Definition len (s : string) : Z := Z.of_nat (String.length s).

(** The local variables of [stl_simplify_name] together with the memory:
    [src] and [dst] are kept as offsets from [name]. *)
Record sstate : Type := mk_sstate {
  mem : buffer;
  src : Z;
  dst : Z;
  nesting : Z
}.

Definition INT_MAX : Z := 2147483647.

(** One pass through the body of [for(;;)]: [inl] is [continue] (or falling
    off the end of the if chain), [inr] is [break] with the final memory.
    [nesting] is an [int]; a [debug_assert] that fails ends the run with a
    fault. *)
Definition continue_ (m : buffer) (s d n : Z) : outcome (sstate + buffer) :=
  Done (inl (mk_sstate m s d n)).

(** [REPLACE(what, with)] and [STRIP(what)], each followed by the rest of
    the else-if chain. *)
Definition REPLACE (what with_ : string) (m : buffer) (s d n : Z)
    (else_ : outcome (sstate + buffer)) : outcome (sstate + buffer) :=
  do b <- strncmp_eq m s (chars what);
  if b then
    do m' <- strcpy m d (chars with_);
    continue_ m' (s + (len what - 1)) (d + len with_) n
  else else_.

Definition STRIP (what : string) (m : buffer) (s d n : Z)
    (else_ : outcome (sstate + buffer)) : outcome (sstate + buffer) :=
  do b <- strncmp_eq m s (chars what);
  if b then continue_ m (s + (len what - 1)) d n
  else else_.

(** The two hand-written branches for ["std::allocator<"] and
    ["std::less<"]: drop a preceding comma, add the length of the pattern
    to [src], and start discarding.  [debug_assert(nesting == 0)] holds
    there: the branch is only reached with [nesting] zero. *)
Definition strip_template (what : string) (m : buffer) (s d : Z)
    (else_ : outcome (sstate + buffer)) : outcome (sstate + buffer) :=
  do b <- strncmp_eq m s (chars what);
  if b then
    do d' <- (if s =? 0 then Done d
              else do p <- load m (s - 1);
                   if Ascii.eqb p ","%char then Done (d - 1) else Done d);
    continue_ m (s + len what) d' 1
  else else_.

Definition body (st : sstate) : outcome (sstate + buffer) :=
  let m := mem st in
  let d := dst st in
  let n := nesting st in
  let s := src st + 1 in
  do c <- load m s;
  if Ascii.eqb c NUL then
    do m' <- store m d NUL; Done (inr m')
  else if negb (n =? 0) then
    if Ascii.eqb c "<"%char then
      if n =? INT_MAX then Fault SignedOverflow else continue_ m s d (n + 1)
    else if Ascii.eqb c ">"%char then
      if 0 <=? n - 1 then continue_ m s d (n - 1) else Fault AssertionFailed
    else continue_ m s d n
  else
    do b <- strncmp_eq m s (chars "::_Node");
    if b then
      do md <- (if s =? 0 then Done (m, d)
                else do p <- load m (s - 1);
                     if Ascii.eqb p " "%char then Done (m, d)
                     else do m' <- store m d " "%char; Done (m', d + 1));
      continue_ (fst md) (s + 7) (snd md) n
    else
    REPLACE "unsigned short" "u16" m s d n (
    REPLACE "unsigned int" "uint" m s d n (
    REPLACE "unsigned __int64" "u64" m s d n (
    STRIP ",0> " m s d n (
    if negb (Ascii.eqb c "s"%char) then
      do m' <- store m d c; continue_ m' s (d + 1) n
    else
    REPLACE "std::_List_nod" "list" m s d n (
    REPLACE "std::_Tree_nod" "map" m s d n (
    REPLACE "std::basic_string<char," "string<" m s d n (
    REPLACE "std::basic_string<unsigned short," "wstring<" m s d n (
    STRIP "std::char_traits<char>," m s d n (
    STRIP "std::char_traits<unsigned short>," m s d n (
    STRIP "std::_Tmap_traits" m s d n (
    STRIP "std::_Tset_traits" m s d n (
    strip_template "std::allocator<" m s d (
    strip_template "std::less<" m s d (
    STRIP "std::" m s d n (
    do m' <- store m d c; continue_ m' s (d + 1) n))))))))))))))).

Fixpoint simplify_loop (fuel : nat) (st : sstate) : outcome buffer :=
  match fuel with
  | O => OutOfFuel
  | S fuel' =>
      do r <- body st;
      match r with
      | inl st' => simplify_loop fuel' st'
      | inr m' => Done m'
      end
  end.

(** [void stl_simplify_name(char* name)].  Every pass advances [src], so
    one pass per byte of memory, and one more, is all the loop can make. *)
Definition stl_simplify_name (name : buffer) : outcome buffer :=
  simplify_loop (S (length name)) (mk_sstate name (-1) 0 0).

(** The C string held by a buffer, and a buffer holding a C string. *)
Fixpoint cstring (m : buffer) : list ascii :=
  match m with
  | [] => []
  | c :: m' => if Ascii.eqb c NUL then [] else c :: cstring m'
  end.

Definition c_str (s : string) : buffer := chars s ++ [NUL].

Definition show (m : buffer) : string := string_of_list_ascii (cstring m).

Definition simplified (s : string) : outcome string :=
  do m <- stl_simplify_name (c_str s); Done (show m).

(* ===================================================================== *)
(** ** STL container inspection                                           *)
(* ===================================================================== *)

(** Addresses and [size_t] values are integers; [size_t] arithmetic wraps
    modulo [2 ^ bits]. *)
Definition wrap (bits x : Z) : Z := x mod 2 ^ bits.

(** Unsigned division; dividing by zero is undefined. *)
Definition udiv (a b : Z) : outcome Z :=
  if b =? 0 then Fault DivisionByZero else Done (a / b).

Definition rd {A : Type} (x : option A) : outcome A :=
  match x with
  | Some a => Done a
  | None => Fault OutOfBounds
  end.

(** The adapter classes. *)
Inductive kind : Type :=
| Kdeque | Klist | Kmap | Kmultimap | Kset | Kmultiset | Kvector
| Kbasic_string | Kqueue | Kstack
| Khash_map | Khash_multimap | Khash_set | Khash_multiset
| Kslist.

(** The standard container an adapter class derives from; its
    [const_iterator] is the adapter's. *)
Definition base_of (k : kind) : kind :=
  match k with
  | Kqueue | Kstack => Kdeque
  | Kmultimap => Kmap
  | Kmultiset => Kset
  | Khash_multimap => Khash_map
  | Khash_multiset => Khash_set
  | _ => k
  end.

(** The contents of the cursor buffer [it_mem]: a [const_iterator] of one
    of the containers.  The code looks into three of them. *)
Inductive cursor : Type :=
| Cur_vector (_Myptr : Z)
| Cur_deque (_Mycont _Myoff : Z)
| Cur_map (_Ptr : Z)
| Cur_native (words : list Z).

(** The memory behind the inspected object, as far as iteration reads it. *)
Record heap : Type := mk_heap {
  load_u8 : Z -> option Z;       (* the byte at an address *)
  load_ptr : Z -> option Z;      (* the pointer stored at an address *)
  node_Left : Z -> option Z;     (* _Left(node), _Parent(node), _Right(node) *)
  node_Parent : Z -> option Z;
  node_Right : Z -> option Z;
  deque_Map : Z -> option Z      (* the member _Map of the deque at an address *)
}.

(** What the member functions of the [int] instantiations return when the
    inspected object is read as that container; the standard library's
    headers, not this file, define them. *)
Record view : Type := mk_view {
  v_size : Z;                    (* size() *)
  v_first : Z;                   (* &front(), or &*begin() *)
  v_begin : list Z               (* begin() *)
}.

Record map_view : Type := mk_map_view {
  map_size : Z;
  map_first : Z;                 (* &*begin() *)
  map_begin : Z                  (* begin()._Ptr *)
}.

Record vector_view : Type := mk_vector_view {
  vector_size : Z;
  vector_capacity : Z;
  vector_front : Z;              (* &front() *)
  vector_back : Z;               (* &back() *)
  vector_begin : Z               (* begin()._Myptr *)
}.

Record deque_view : Type := mk_deque_view {
  deque_size : Z;
  deque_front : Z;
  deque_Myoff : Z;
  deque_Mysize : Z;
  deque_Mapsize : Z;
  deque_begin : Z * Z            (* begin(): _Mycont, _Myoff *)
}.

Record string_view : Type := mk_string_view {
  string_size : Z;
  string_c_str : Z;
  string_Myres : Z;
  string_Mysize : Z;
  string_begin : list Z
}.

(** The inspected object [p], seen through each of the casts
    [(Any_xxx* )p]. *)
Record blob : Type := mk_blob {
  as_deque : deque_view;
  as_list : view;
  as_map : map_view;
  as_set : view;
  as_vector : vector_view;
  as_basic_string : string_view;
  as_hash_map : view;
  as_hash_set : view;
  as_slist : view
}.

(** What the build and the headers that are not part of this file fix:
    the width of [size_t], the external collaborators, the constants of
    [debug_stl.h], the preprocessor switches, and the native iterator
    operations of the standard library. *)
Record platform : Type := mk_platform {
  size_t_bits : Z;
  sizeof_ptr : Z;
  debug_is_bogus_pointer : Z -> bool;
  match_wildcard : string -> string -> bool;
  snprintf_ws : list Z -> string;          (* "%ws" into type_name *)
  STL_CNT_UNKNOWN : Z;
  STL_CNT_INVALID : Z;
  MSC_VER_ge_1400 : bool;                  (* defined(_MSC_VER) && _MSC_VER >= 1400 *)
  STL_DINKUMWARE : bool;                   (* STL_DINKUMWARE != 0 *)
  HAVE_STL_HASH : option (string * string * string * string);
                                           (* STL_HASH_MAP, _MULTIMAP, _SET, _MULTISET *)
  HAVE_STL_SLIST : option string;          (* STL_SLIST *)
  sizeof_Any : kind -> Z;
  sizeof_iterator : kind -> Z;
  DEBUG_STL_MAX_ITERATOR_SIZE : Z;
  addr_Isnil : Z -> Z;                     (* &node->_Isnil *)
  native_deref : kind -> heap -> cursor -> option Z;        (* &*it *)
  native_incr : kind -> heap -> cursor -> option cursor     (* ++it *)
}.

Section Adapters.

Variable P : platform.

Local Abbreviation w := (wrap (size_t_bits P)).

(** basic sanity checks shared by all containers. *)
Definition container_valid (front el_count : Z) : bool :=
  if el_count >? 16777216 (* 0x1000000 *) then false
  else if debug_is_bogus_pointer P front then false
  else true.

(** *** class Any_deque : public std::deque<int> *)

Definition el_per_bucket (el_size : Z) : outcome Z :=
  do q <- udiv 16 el_size; Done (Z.max q 1).   (* MAX(16 / el_size, 1) *)

Definition Any_deque_get_item (h : heap) (d i el_size : Z) : outcome Z :=
  do map <- rd (deque_Map h d);
  do epb <- el_per_bucket el_size;
  let bucket_idx := i / epb in
  let idx_in_bucket := w (i - w (bucket_idx * epb)) in
  do bucket <- rd (load_ptr h (w (map + bucket_idx * sizeof_ptr P)));
  Done (w (bucket + idx_in_bucket * el_size)).

Definition Any_deque_el_count (d : deque_view) (el_size : Z) : outcome Z :=
  Done (deque_size d).

Definition Any_deque_valid (d : deque_view) (el_size : Z) : outcome bool :=
  do el_count_ <- Any_deque_el_count d el_size;
  if negb (el_count_ =? 0) && negb (container_valid (deque_front d) el_count_)
  then Done false
  else if STL_DINKUMWARE P then
    do epb <- el_per_bucket el_size;
    if deque_Myoff d >=? epb then Done false
    else if deque_Mysize d >? w (deque_Mapsize d * epb) then Done false
    else Done true
  else Done true.

(** [Any_deque::iter::deref] *)
Definition Any_deque_iter_deref (h : heap) (it : cursor) (el_size : Z)
    : outcome Z :=
  match it with
  | Cur_deque d off => Any_deque_get_item h d off el_size
  | _ => Fault OutOfBounds
  end.

(** *** class Any_list, Any_set, Any_hash_map, Any_hash_set, Any_slist:
    the same two members in each. *)

Definition Any_plain_el_count (c : view) (el_size : Z) : outcome Z :=
  Done (v_size c).

Definition Any_plain_valid (c : view) (el_size : Z) : outcome bool :=
  do n <- Any_plain_el_count c el_size;
  if negb (container_valid (v_first c) n) then Done false else Done true.

(** *** class Any_map : public std::map<int,int> *)

Definition sizeof_value_type : Z := 8.   (* std::pair<const int, int> *)

(** [_Isnil(_Pnode, el_size)]: the flag lies behind [_Myval], so its
    address moves with the element size. *)
Definition Any_map_Isnil (h : heap) (pnode el_size : Z) : outcome bool :=
  let p := w (addr_Isnil P pnode + w (el_size - sizeof_value_type)) in
  do b <- rd (load_u8 h p);
  if b <=? 1 then Done (negb (b =? 0)) else Fault AssertionFailed.

Definition Any_map_el_count (c : map_view) (el_size : Z) : outcome Z :=
  Done (map_size c).

Definition Any_map_valid (c : map_view) (el_size : Z) : outcome bool :=
  do n <- Any_map_el_count c el_size;
  if negb (container_valid (map_first c) n) then Done false else Done true.

(** [while(!_Isnil(_Left(_Pnode), el_size)) _Pnode = _Left(_Pnode);] *)
Fixpoint leftmost (fuel : nat) (h : heap) (el_size pnode : Z) : outcome Z :=
  match fuel with
  | O => OutOfFuel
  | S fuel' =>
      do l <- rd (node_Left h pnode);
      do nil <- Any_map_Isnil h l el_size;
      if negb nil then leftmost fuel' h el_size l else Done pnode
  end.

(** [while(!_Isnil(_Pnode = _Parent(_Ptr), el_size) && _Ptr == _Right(_Pnode))
      _Ptr = _Pnode;] gives the final [_Pnode]. *)
Fixpoint climb (fuel : nat) (h : heap) (el_size ptr : Z) : outcome Z :=
  match fuel with
  | O => OutOfFuel
  | S fuel' =>
      do pnode <- rd (node_Parent h ptr);
      do nil <- Any_map_Isnil h pnode el_size;
      if negb nil then
        do r <- rd (node_Right h pnode);
        if ptr =? r then climb fuel' h el_size pnode else Done pnode
      else Done pnode
  end.

(** [Any_map::iter::advance]: the new [_Ptr]. *)
Definition Any_map_iter_advance (fuel : nat) (h : heap) (el_size ptr : Z)
    : outcome Z :=
  do nil <- Any_map_Isnil h ptr el_size;
  if nil then Done ptr
  else
    do pnode <- rd (node_Right h ptr);
    do rnil <- Any_map_Isnil h pnode el_size;
    if negb rnil then leftmost fuel h el_size pnode
    else climb fuel h el_size ptr.

(** *** class Any_vector : public std::vector<int> *)

Definition Any_vector_el_count (v : vector_view) (el_size : Z) : outcome Z :=
  udiv (w (vector_size v * 4)) el_size.

Definition Any_vector_valid (v : vector_view) (el_size : Z) : outcome bool :=
  do el_count_ <- Any_vector_el_count v el_size;
  if negb (el_count_ =? 0) && negb (container_valid (vector_front v) el_count_)
  then Done false
  else if vector_size v >? vector_capacity v then Done false
  else if vector_front v >? vector_back v then Done false
  else Done true.

(** [Any_vector::iter::advance] *)
Definition Any_vector_iter_advance (myptr el_size : Z) : Z :=
  w (myptr + el_size).

(** *** class Any_basic_string : public std::string *)

Definition Any_basic_string_el_count (s : string_view) (el_size : Z)
    : outcome Z :=
  Done (string_size s).

Definition Any_basic_string_valid (s : string_view) (el_size : Z)
    : outcome bool :=
  do n <- Any_basic_string_el_count s el_size;
  if negb (container_valid (string_c_str s) n) then Done false
  else if STL_DINKUMWARE P then
    do q <- udiv 16 el_size;
    if string_Myres s <? w (q - 1) then Done false
    else if string_Mysize s >? string_Myres s then Done false
    else Done true
  else Done true.

(** *** The members of an adapter class, by class.  [Any_queue] and
    [Any_stack] derive from [Any_deque] and add nothing, [Any_multimap]
    from [Any_map], [Any_multiset] from [Any_set], the hash multi
    variants from their single-key classes. *)

Definition el_count (k : kind) (b : blob) (el_size : Z) : outcome Z :=
  match k with
  | Kdeque | Kqueue | Kstack => Any_deque_el_count (as_deque b) el_size
  | Klist => Any_plain_el_count (as_list b) el_size
  | Kmap | Kmultimap => Any_map_el_count (as_map b) el_size
  | Kset | Kmultiset => Any_plain_el_count (as_set b) el_size
  | Kvector => Any_vector_el_count (as_vector b) el_size
  | Kbasic_string => Any_basic_string_el_count (as_basic_string b) el_size
  | Khash_map | Khash_multimap => Any_plain_el_count (as_hash_map b) el_size
  | Khash_set | Khash_multiset => Any_plain_el_count (as_hash_set b) el_size
  | Kslist => Any_plain_el_count (as_slist b) el_size
  end.

Definition valid (k : kind) (b : blob) (el_size : Z) : outcome bool :=
  match k with
  | Kdeque | Kqueue | Kstack => Any_deque_valid (as_deque b) el_size
  | Klist => Any_plain_valid (as_list b) el_size
  | Kmap | Kmultimap => Any_map_valid (as_map b) el_size
  | Kset | Kmultiset => Any_plain_valid (as_set b) el_size
  | Kvector => Any_vector_valid (as_vector b) el_size
  | Kbasic_string => Any_basic_string_valid (as_basic_string b) el_size
  | Khash_map | Khash_multimap => Any_plain_valid (as_hash_map b) el_size
  | Khash_set | Khash_multiset => Any_plain_valid (as_hash_set b) el_size
  | Kslist => Any_plain_valid (as_slist b) el_size
  end.

Definition begin_ (k : kind) (b : blob) : cursor :=
  match k with
  | Kdeque | Kqueue | Kstack =>
      Cur_deque (fst (deque_begin (as_deque b))) (snd (deque_begin (as_deque b)))
  | Klist => Cur_native (v_begin (as_list b))
  | Kmap | Kmultimap => Cur_map (map_begin (as_map b))
  | Kset | Kmultiset => Cur_native (v_begin (as_set b))
  | Kvector => Cur_vector (vector_begin (as_vector b))
  | Kbasic_string => Cur_native (string_begin (as_basic_string b))
  | Khash_map | Khash_multimap => Cur_native (v_begin (as_hash_map b))
  | Khash_set | Khash_multiset => Cur_native (v_begin (as_hash_set b))
  | Kslist => Cur_native (v_begin (as_slist b))
  end.

(** *** The generic iterator: returns the next element and leaves the
    advanced iterator in [it_mem]. *)

(** [template<class T> stl_iterator]: the container's own [operator*] and
    [operator++]; [el_size] is unused. *)
Definition stl_iterator_generic (k : kind) (h : heap) (it : cursor)
    (el_size : Z) : outcome (Z * cursor) :=
  do p <- rd (native_deref P (base_of k) h it);
  do it' <- rd (native_incr P (base_of k) h it);
  Done (p, it').

(** [template<> stl_iterator<Any_vector>] *)
Definition stl_iterator_vector (h : heap) (it : cursor) (el_size : Z)
    : outcome (Z * cursor) :=
  do p <- rd (native_deref P Kvector h it);
  match it with
  | Cur_vector myptr => Done (p, Cur_vector (Any_vector_iter_advance myptr el_size))
  | _ => Fault OutOfBounds
  end.

(** [template<> stl_iterator<Any_deque>] *)
Definition stl_iterator_deque (h : heap) (it : cursor) (el_size : Z)
    : outcome (Z * cursor) :=
  do p <- Any_deque_iter_deref h it el_size;
  do it' <- rd (native_incr P Kdeque h it);
  Done (p, it').

(** [template<> stl_iterator<Any_map>] *)
Definition stl_iterator_map (fuel : nat) (h : heap) (it : cursor) (el_size : Z)
    : outcome (Z * cursor) :=
  do p <- rd (native_deref P Kmap h it);
  match it with
  | Cur_map ptr =>
      do ptr' <- Any_map_iter_advance fuel h el_size ptr;
      Done (p, Cur_map ptr')
  | _ => Fault OutOfBounds
  end.

(** [stl_iterator<Any_k>]: a specialisation is chosen for exactly the
    class it names, the primary template for every other class. *)
Definition stl_iterator (fuel : nat) (k : kind) (h : heap) (it : cursor)
    (el_size : Z) : outcome (Z * cursor) :=
  match k with
  | Kvector => stl_iterator_vector h it el_size
  | Kdeque =>
      if STL_DINKUMWARE P then stl_iterator_deque h it el_size
      else stl_iterator_generic k h it el_size
  | Kmap =>
      if STL_DINKUMWARE P then stl_iterator_map fuel h it el_size
      else stl_iterator_generic k h it el_size
  | _ => stl_iterator_generic k h it el_size
  end.

(** *** get_container_info and the dispatcher *)

(** A [DebugIterator] is a pointer to a function. *)
Inductive DebugIterator : Type :=
| stl_iterator_of (k : kind)        (* &stl_iterator<Any_k> *)
| other_function (address : Z).

(** The three out-parameters. *)
Record outputs : Type := mk_outputs {
  out_el_count : Z;
  out_el_iterator : DebugIterator;
  out_it_mem : cursor
}.

(** What a call does to the inspected object, in order; a failed
    [debug_assert] reports and lets the call go on. *)
Inductive event : Type :=
| Assert_failed
| Call_el_count (k : kind)
| Call_begin (k : kind)
| Call_valid (k : kind).

Definition debug_assert (cond : bool) : list event :=
  if cond then [] else [Assert_failed].

Definition get_container_info (k : kind) (t : blob) (size el_size : Z)
    (o : outputs) : outcome (bool * outputs * list event) :=
  let a1 := debug_assert (sizeof_Any P k =? size) in
  let a2 := debug_assert (sizeof_iterator P k <? DEBUG_STL_MAX_ITERATOR_SIZE P) in
  do n <- el_count k t el_size;
  let o' := mk_outputs n (stl_iterator_of k) (begin_ k t) in
  do v <- valid k t el_size;
  Done (v, o', a1 ++ a2 ++ [Call_el_count k; Call_begin k; Call_valid k]).

(** The else-if chain the [CONTAINER] lines expand to, in their order. *)
Definition STD_CONTAINER (k : kind) (name : string) : kind * string :=
  (k, ("std::" ++ name ++ "<*>")%string).

Definition pattern_table : list (kind * string) :=
  [ STD_CONTAINER Kdeque "deque";
    STD_CONTAINER Klist "list";
    STD_CONTAINER Kmap "map";
    STD_CONTAINER Kmultimap "multimap";
    STD_CONTAINER Kset "set";
    STD_CONTAINER Kmultiset "multiset";
    STD_CONTAINER Kvector "vector";
    STD_CONTAINER Kbasic_string "basic_string";
    STD_CONTAINER Kqueue "queue";
    STD_CONTAINER Kstack "stack" ]
  ++ match HAVE_STL_HASH P with
     | Some (hm, hmm, hs, hms) =>
         [ (Khash_map, (hm ++ "<*>")%string);
           (Khash_multimap, (hmm ++ "<*>")%string);
           (Khash_set, (hs ++ "<*>")%string);
           (Khash_multiset, (hms ++ "<*>")%string) ]
     | None => []
     end
  ++ match HAVE_STL_SLIST P with
     | Some sl => [ (Kslist, (sl ++ "<*>")%string) ]
     | None => []
     end.

(** The state the chain leaves: [handled], [valid], the out-parameters and
    the events. *)
Fixpoint CONTAINER_chain (table : list (kind * string)) (type_name : string)
    (p : blob) (size el_size : Z) (o : outputs)
    : outcome (bool * bool * outputs * list event) :=
  match table with
  | [] => Done (false, false, o, [])
  | (k, type_name_pattern) :: rest =>
      if match_wildcard P type_name type_name_pattern then
        do r <- get_container_info k p size el_size o;
        let '(v, o', tr) := r in
        Done (true, v, o', tr)
      else CONTAINER_chain rest type_name p size el_size o
  end.

(** [int stl_get_container_info(...)]: the result code, the
    out-parameters, and the events. *)
Definition stl_get_container_info (wtype_name : list Z) (p : blob)
    (size el_size : Z) (o : outputs) : outcome (Z * outputs * list event) :=
  if MSC_VER_ge_1400 P then Done (-1, o, [])
  else
    let type_name := snprintf_ws P wtype_name in
    do r <- CONTAINER_chain pattern_table type_name p size el_size o;
    let '(handled, valid_, o', tr) := r in
    if negb handled then Done (STL_CNT_UNKNOWN P, o', tr)
    else if negb valid_ then Done (STL_CNT_INVALID P, o', tr)
    else Done (0, o', tr).

(** The entry of the table a type name selects: the first that matches. *)
Fixpoint first_match (table : list (kind * string)) (type_name : string)
    : option kind :=
  match table with
  | [] => None
  | (k, pat) :: rest =>
      if match_wildcard P type_name pat then Some k
      else first_match rest type_name
  end.

End Adapters.

(* ===================================================================== *)
(** ** Sample collaborators and objects                                   *)
(* ===================================================================== *)

(** A wildcard matcher in the manner of [match_wildcard]: [*] stands for
    any run of characters, [?] for any one. *)
Fixpoint wildcard (pat : list ascii) : list ascii -> bool :=
  match pat with
  | [] => fun s => match s with [] => true | _ => false end
  | c :: pat' =>
      if Ascii.eqb c "*"%char then
        fix star (s : list ascii) : bool :=
          wildcard pat' s || match s with [] => false | _ :: s' => star s' end
      else
        fun s => match s with
                 | [] => false
                 | x :: s' => (Ascii.eqb c "?"%char || Ascii.eqb c x) && wildcard pat' s'
                 end
  end.

Definition sample_match_wildcard (s pat : string) : bool :=
  wildcard (chars pat) (chars s).

(** Wide characters narrowed one by one, at most 999 of them. *)
Definition sample_snprintf_ws (ws : list Z) : string :=
  string_of_list_ascii
    (List.map (fun c => ascii_of_nat (Z.to_nat c)) (firstn 999 ws)).

Definition wide (s : string) : list Z :=
  List.map (fun c => Z.of_nat (nat_of_ascii c)) (chars s).

(** Addresses below 64K or not a multiple of four are taken for bogus. *)
Definition sample_is_bogus_pointer (p : Z) : bool :=
  (p <? 65536) || negb (p mod 4 =? 0).

(** [std::deque<int>::const_iterator] with four [int]s to a block and
    four-byte pointers, and the tree iterator's [operator*] with [_Myval]
    twelve bytes into the node: the library's [operator*]. *)
Definition sample_native_deref (k : kind) (h : heap) (it : cursor) : option Z :=
  match k, it with
  | Kdeque, Cur_deque d off =>
      match deque_Map h d with
      | Some map =>
          match load_ptr h (map + (off / 4) * 4) with
          | Some bucket => Some (bucket + (off mod 4) * 4)
          | None => None
          end
      | None => None
      end
  | Kmap, Cur_map ptr => Some (ptr + 12)
  | Kvector, Cur_vector myptr => Some myptr
  | _, _ => None
  end.

(** A 32-bit build against the Dinkumware library, given the library's
    iterator operations; [guard] is the [_MSC_VER >= 1400] early return. *)
Definition sample_platform_with (guard : bool)
    (deref : kind -> heap -> cursor -> option Z)
    (incr : kind -> heap -> cursor -> option cursor) : platform :=
  {| size_t_bits := 32;
     sizeof_ptr := 4;
     debug_is_bogus_pointer := sample_is_bogus_pointer;
     match_wildcard := sample_match_wildcard;
     snprintf_ws := sample_snprintf_ws;
     STL_CNT_UNKNOWN := -100;
     STL_CNT_INVALID := -101;
     MSC_VER_ge_1400 := guard;
     STL_DINKUMWARE := true;
     HAVE_STL_HASH := None;
     HAVE_STL_SLIST := None;
     sizeof_Any := fun _ => 16;
     sizeof_iterator := fun _ => 8;
     DEBUG_STL_MAX_ITERATOR_SIZE := 64;
     addr_Isnil := fun node => node + 21;
     native_deref := deref;
     native_incr := incr |}.

(** The library's [operator++]: the deque's counts one element on, the
    vector's one [int] on, and the tree's is the walk of
    [Any_map::iter::advance] with the flag where a node of [int] pairs has
    it. *)
Definition sample_native_incr (k : kind) (h : heap) (it : cursor)
    : option cursor :=
  match k, it with
  | Kdeque, Cur_deque d off => Some (Cur_deque d (off + 1))
  | Kvector, Cur_vector myptr => Some (Cur_vector (myptr + 4))
  | Kmap, Cur_map ptr =>
      match Any_map_iter_advance
              (sample_platform_with false (fun _ _ _ => None) (fun _ _ _ => None))
              64 h sizeof_value_type ptr with
      | Done ptr' => Some (Cur_map ptr')
      | _ => None
      end
  | _, _ => None
  end.

Definition sample_platform (guard : bool) : platform :=
  sample_platform_with guard sample_native_deref sample_native_incr.

Definition empty_view : view := mk_view 0 0 [].

(** An object that reads as a vector with the given members and as
    nothing of interest otherwise. *)
Definition vector_blob (v : vector_view) : blob :=
  {| as_deque := mk_deque_view 0 0 0 0 0 (0, 0);
     as_list := empty_view;
     as_map := mk_map_view 0 0 0;
     as_set := empty_view;
     as_vector := v;
     as_basic_string := mk_string_view 0 0 0 0 [];
     as_hash_map := empty_view;
     as_hash_set := empty_view;
     as_slist := empty_view |}.

(** Five [int]s at 0x10000, room for eight. *)
Definition five_ints : vector_view :=
  mk_vector_view 5 8 65536 65552 65536.

Definition no_outputs : outputs :=
  mk_outputs 0 (other_function 0) (Cur_native []).

(** A deque object at address 1000 whose map, at 2000, holds the
    addresses of two blocks. *)
Definition deque_heap : heap :=
  {| load_u8 := fun _ => None;
     load_ptr := fun a => if a =? 2000 then Some 3000
                          else if a =? 2004 then Some 4000 else None;
     node_Left := fun _ => None;
     node_Parent := fun _ => None;
     node_Right := fun _ => None;
     deque_Map := fun d => if d =? 1000 then Some 2000 else None |}.

(* ===================================================================== *)
(** ** Trees, for stating what [Any_map::iter::advance] computes          *)
(* ===================================================================== *)

(** A binary tree of node addresses. *)
Inductive tree : Type :=
| Leaf
| Node (l : tree) (a : Z) (r : tree).

Fixpoint inorder (t : tree) : list Z :=
  match t with
  | Leaf => []
  | Node l a r => inorder l ++ a :: inorder r
  end.

Fixpoint height (t : tree) : nat :=
  match t with
  | Leaf => O
  | Node l _ r => S (Nat.max (height l) (height r))
  end.

(** The pointer that stands for a subtree: its root, or the head node
    (the end sentinel) for an empty one. *)
Definition root_of (head : Z) (t : tree) : Z :=
  match t with
  | Leaf => head
  | Node _ a _ => a
  end.

(** The nodes of [t] lie in memory with their three links, below the node
    [parent], and none carries the sentinel flag. *)
Fixpoint laid_out (P : platform) (h : heap) (el_size head parent : Z)
    (t : tree) : Prop :=
  match t with
  | Leaf => True
  | Node l a r =>
      Any_map_Isnil P h a el_size = Done false /\
      node_Parent h a = Some parent /\
      node_Left h a = Some (root_of head l) /\
      node_Right h a = Some (root_of head r) /\
      laid_out P h el_size head a l /\
      laid_out P h el_size head a r
  end.

(** The memory holds the tree [t] of a map whose head node is [head]. *)
Definition map_tree (P : platform) (h : heap) (el_size head : Z) (t : tree)
    : Prop :=
  Any_map_Isnil P h head el_size = Done true /\
  laid_out P h el_size head head t /\
  NoDup (inorder t).

(** Three nodes, 200 < 100 < 300 in key order, and the head node 400;
    the flags are where a node of eight-byte elements has them. *)
Definition three_nodes : tree :=
  Node (Node Leaf 200 Leaf) 100 (Node Leaf 300 Leaf).

Definition tree_heap : heap :=
  {| load_u8 := fun a => if a =? 421 then Some 1
                         else if (a =? 121) || (a =? 221) || (a =? 321)
                              then Some 0 else None;
     load_ptr := fun _ => None;
     node_Left := fun n => if n =? 100 then Some 200
                           else if n =? 400 then Some 200 else Some 400;
     node_Parent := fun n => if n =? 100 then Some 400 else Some 100;
     node_Right := fun n => if n =? 100 then Some 300
                            else if n =? 400 then Some 300 else Some 400;
     deque_Map := fun _ => None |}.

(** The same three nodes holding four-byte elements: the flags lie four
    bytes earlier, and where a node of [int] pairs has its flag there is
    a byte of something else, here 1. *)
Definition tree_heap_4 : heap :=
  {| load_u8 := fun a => if a =? 417 then Some 1
                         else if (a =? 117) || (a =? 217) || (a =? 317)
                              then Some 0
                         else if (a =? 121) || (a =? 221) || (a =? 321) || (a =? 421)
                              then Some 1 else None;
     load_ptr := load_ptr tree_heap;
     node_Left := node_Left tree_heap;
     node_Parent := node_Parent tree_heap;
     node_Right := node_Right tree_heap;
     deque_Map := deque_Map tree_heap |}.

Definition vector_name : list Z := wide "std::vector<int,std::allocator<int> >".

(** A vector reporting nine elements in room for eight. *)
Definition nine_in_eight : vector_view := mk_vector_view 9 8 65536 65568 65536.

(* ===================================================================== *)
(** ** Vocabulary for the properties of the name simplifier              *)
(* ===================================================================== *)

(** The state after [n] passes through the loop body. *)
Fixpoint passes (n : nat) (st : sstate) : outcome (sstate + buffer) :=
  match n with
  | O => Done (inl st)
  | S n' =>
      do r <- body st;
      match r with
      | inl st' => passes n' st'
      | inr m => Done (inr m)
      end
  end.

(** The offset in [s] of the bracket at which a count of open brackets
    that stands at [k] returns to zero: the bracket that matches. *)
Fixpoint matching (k : Z) (s : list ascii) : option nat :=
  match s with
  | [] => None
  | c :: s' =>
      if Ascii.eqb c "<"%char then option_map S (matching (k + 1) s')
      else if Ascii.eqb c ">"%char then
        if k =? 1 then Some O else option_map S (matching (k - 1) s')
      else option_map S (matching k s')
  end.

Fixpoint has_prefix (pat s : list ascii) : bool :=
  match pat, s with
  | [], _ => true
  | _ :: _, [] => false
  | p :: pat', c :: s' => Ascii.eqb c p && has_prefix pat' s'
  end.

(** The texts at which the loop does anything but copy a character; every
    pattern tested after the early out begins with the last of them. *)
Definition triggers : list string :=
  [ "::_Node"; "unsigned short"; "unsigned int"; "unsigned __int64";
    ",0> "; "std::" ]%string.

Definition triggered (s : list ascii) : bool :=
  existsb (fun t => has_prefix (chars t) s) triggers.

(** None of the texts occurs anywhere in [s]. *)
Fixpoint trigger_free (s : list ascii) : bool :=
  match s with
  | [] => true
  | _ :: s' => negb (triggered s) && trigger_free s'
  end.

(** The length of the C string in a buffer. *)
Definition strlen (m : buffer) : Z := Z.of_nat (length (cstring m)).

(** ["::_Node"] and its terminator, with the remains of an older, longer
    string behind it in the caller's buffer. *)
Definition node_then_stale : buffer :=
  chars "::_Node" ++ [NUL] ++ chars "0123456789" ++ [NUL].

Definition nul_free (s : list ascii) : bool :=
  forallb (fun c => negb (Ascii.eqb c NUL)) s.

(** The simplifier applied to its own output. *)
Definition simplified_twice (s : string) : outcome string :=
  do m1 <- stl_simplify_name (c_str s);
  do m2 <- stl_simplify_name m1;
  Done (show m2).

(** A name whose comparator has an empty argument list. *)
Definition less_empty : buffer := c_str "A<std::less<>,B>C".

(** A name that begins with a stripped pattern ending in a comma, the
    allocator behind it. *)
Definition traits_first : buffer :=
  c_str "std::char_traits<char>,std::allocator<char>x".


(** The patterns of the three hand-written branches, and whether a string
    ends in one of them. *)
Definition hand_written : list string :=
  [ "::_Node"; "std::allocator<"; "std::less<" ]%string.

Definition ends_hand_written (s : list ascii) : bool :=
  existsb (fun t => has_prefix (rev (chars t)) (rev s)) hand_written.

(** The rewrite of the name [s], followed in memory by its terminator and
    [rest], is in place: what has been read lies in [pre], what has not in
    [suf], and [dst] has not passed [src]. *)
Definition in_place (s rest : list ascii) (st : sstate) : Prop :=
  exists pre front suf : list ascii,
    mem st = pre ++ suf ++ NUL :: rest /\
    s = front ++ suf /\
    length pre = length front /\
    src st + 1 = Z.of_nat (length pre) /\
    dst st <= Z.of_nat (length pre).

(** The memory a finished rewrite leaves: [rest] untouched behind the
    place of the name and its terminator, and a NUL within that place. *)
Definition rewritten (s rest : list ascii) (out : buffer) : Prop :=
  exists (A : list ascii) (i : nat),
    out = A ++ rest /\ length A = S (length s) /\
    (i <= length s)%nat /\ out !! i = Some NUL.

Definition in_place_result (s rest : list ascii)
    (r : outcome (sstate + buffer)) : Prop :=
  match r with
  | Done (inl st') => in_place s rest st'
  | Done (inr out) => rewritten s rest out
  | _ => True
  end.

(** An operation on memory returns or goes out of bounds. *)
Definition mem_op {A : Type} (r : outcome A) : Prop :=
  match r with
  | Done _ => True
  | Fault f => f = OutOfBounds
  | OutOfFuel => False
  end.

(** What a pass may do: go on with [src] advanced, the memory as long as
    it was and [nesting] within bounds; or end the loop, leaving a NUL at
    [dst]; or stop at an access outside the memory or at an overflow of
    [nesting].  It cannot fail an assertion. *)
Definition pass_ok (st : sstate) (r : outcome (sstate + buffer)) : Prop :=
  match r with
  | Done (inl st') =>
      src st + 1 <= src st' /\
      length (mem st') = length (mem st) /\
      0 <= nesting st' <= src st' + 2
  | Done (inr m') =>
      length m' = length (mem st) /\ m' !! Z.to_nat (dst st) = Some NUL
  | Fault f =>
      f = OutOfBounds \/
      (f = SignedOverflow /\ nesting st = INT_MAX /\
       src st + 1 < Z.of_nat (length (mem st)))
  | OutOfFuel => False
  end.

(* ===================================================================== *)
(** ** Vocabulary for further properties                                  *)
(* ===================================================================== *)

(** The loop body with the early out ([else if(c != 's')]) taken away:
    what the if chain would do were every pattern tested at every
    character. *)
Definition body_without_early_out (st : sstate) : outcome (sstate + buffer) :=
  let m := mem st in
  let d := dst st in
  let n := nesting st in
  let s := src st + 1 in
  do c <- load m s;
  if Ascii.eqb c NUL then
    do m' <- store m d NUL; Done (inr m')
  else if negb (n =? 0) then
    if Ascii.eqb c "<"%char then
      if n =? INT_MAX then Fault SignedOverflow else continue_ m s d (n + 1)
    else if Ascii.eqb c ">"%char then
      if 0 <=? n - 1 then continue_ m s d (n - 1) else Fault AssertionFailed
    else continue_ m s d n
  else
    do b <- strncmp_eq m s (chars "::_Node");
    if b then
      do md <- (if s =? 0 then Done (m, d)
                else do p <- load m (s - 1);
                     if Ascii.eqb p " "%char then Done (m, d)
                     else do m' <- store m d " "%char; Done (m', d + 1));
      continue_ (fst md) (s + 7) (snd md) n
    else
    REPLACE "unsigned short" "u16" m s d n (
    REPLACE "unsigned int" "uint" m s d n (
    REPLACE "unsigned __int64" "u64" m s d n (
    STRIP ",0> " m s d n (
    REPLACE "std::_List_nod" "list" m s d n (
    REPLACE "std::_Tree_nod" "map" m s d n (
    REPLACE "std::basic_string<char," "string<" m s d n (
    REPLACE "std::basic_string<unsigned short," "wstring<" m s d n (
    STRIP "std::char_traits<char>," m s d n (
    STRIP "std::char_traits<unsigned short>," m s d n (
    STRIP "std::_Tmap_traits" m s d n (
    STRIP "std::_Tset_traits" m s d n (
    strip_template "std::allocator<" m s d (
    strip_template "std::less<" m s d (
    STRIP "std::" m s d n (
    do m' <- store m d c; continue_ m' s (d + 1) n))))))))))))))).

(** No write has reached a character that is still to be read, nor the
    one read last: from [src] on the memory is the caller's, and [dst] is
    at most one ahead of [src]. *)
Definition unread_intact (name : buffer) (st : sstate) : Prop :=
  -1 <= src st /\
  dst st <= src st + 1 /\
  length (mem st) = length name /\
  forall i : nat, src st <= Z.of_nat i -> mem st !! i = name !! i.

Definition unread_intact_result (name : buffer)
    (r : outcome (sstate + buffer)) : Prop :=
  match r with
  | Done (inl st') => unread_intact name st'
  | _ => True
  end.

(** Whether the character before the text behind [pre] is a comma. *)
Definition comma_before (pre : list ascii) : bool :=
  match last pre with
  | Some c => Ascii.eqb c ","%char
  | None => false
  end.

(** The patterns of the two branches that start discarding. *)
Definition discarding : list string :=
  [ "std::allocator<"; "std::less<" ]%string.

(** The address [j] elements of [el_size] bytes behind [first]. *)
Definition element_address (bits first el_size : Z) (j : nat) : Z :=
  wrap bits (first + Z.of_nat j * el_size).

(** A caller's loop: [k] calls of the step function, the addresses they
    return and the cursor they leave. *)
Fixpoint iterate (k : nat) (step : cursor -> outcome (Z * cursor))
    (it : cursor) : outcome (list Z * cursor) :=
  match k with
  | O => Done ([], it)
  | S k' =>
      do r <- step it;
      do rs <- iterate k' step (snd r);
      Done (fst r :: fst rs, snd rs)
  end.

(* ===================================================================== *)
(** * Part II: properties                                                 *)
(* ===================================================================== *)

(** ** Outcomes *)

Lemma bind_Done {A B : Type} (x : outcome A) (k : A -> outcome B) (b : B) :
  bind x k = Done b -> exists a, x = Done a /\ k a = Done b.
Proof.
  destruct x as [a| |]; simpl; intros H; try discriminate.
  exists a; split; [reflexivity | exact H].
Qed.

(** ** The bit-pattern validator and the adapters *)

Section AdapterFacts.

Variable P : platform.

(** C2.  [container_valid] rejects every element count above 2^24 whatever
    the address, rejects every address the probe [debug_is_bogus_pointer]
    reports whatever the count, and accepts exactly when neither holds. *)
Theorem container_valid_spec (front el_count_ : Z) :
  (el_count_ > 2 ^ 24 -> container_valid P front el_count_ = false) /\
  (debug_is_bogus_pointer P front = true ->
   container_valid P front el_count_ = false) /\
  (container_valid P front el_count_ = true <->
   el_count_ <= 2 ^ 24 /\ debug_is_bogus_pointer P front = false).
Proof.
  unfold container_valid.
  change (2 ^ 24) with 16777216.
  destruct (Z.gtb_spec el_count_ 16777216) as [Hgt | Hle];
    destruct (debug_is_bogus_pointer P front) eqn:Hb;
    repeat split; intros; try reflexivity; try lia; try discriminate;
    try (destruct H; discriminate); try (destruct H; lia).
Qed.

(** Whoever reports an object valid has been able to count it. *)
Lemma valid_counts (k : kind) (t : blob) (el_size : Z) (v : bool) :
  valid P k t el_size = Done v -> exists n, el_count P k t el_size = Done n.
Proof.
  destruct k; simpl; intros H;
    try (eexists; reflexivity).
  unfold Any_vector_valid in H.
  apply bind_Done in H as (n & Hn & _). exists n; exact Hn.
Qed.

(** C3.  For an element size that is not zero, [Any_vector::el_count] is
    the reported size times 4 (the size of the [int] the adapter is
    instantiated on) divided by the element size, in [size_t] arithmetic;
    where the product fits [size_t], as it does for the size of any real
    vector of [int], that is the quotient of the integers. *)
Theorem Any_vector_el_count_spec (v : vector_view) (el_size : Z) :
  0 < el_size ->
  Any_vector_el_count P v el_size
    = Done (wrap (size_t_bits P) (vector_size v * 4) / el_size) /\
  (0 <= vector_size v * 4 < 2 ^ size_t_bits P ->
   Any_vector_el_count P v el_size = Done (vector_size v * 4 / el_size)).
Proof.
  intros Hpos. unfold Any_vector_el_count, udiv.
  destruct (Z.eqb_spec el_size 0) as [-> | _]; [lia |].
  split; [reflexivity |].
  intros Hfit. unfold wrap. rewrite Z.mod_small by exact Hfit. reflexivity.
Qed.

(** C5, as amended.  Called with an element size other than zero,
    [Any_vector::valid] returns false for every object that reports more
    elements than capacity, and for every object whose front element lies
    behind its back element. *)
Theorem Any_vector_valid_rejects (v : vector_view) (el_size : Z) :
  el_size <> 0 ->
  vector_size v > vector_capacity v \/ vector_front v > vector_back v ->
  Any_vector_valid P v el_size = Done false.
Proof.
  intros Hel Hbad. unfold Any_vector_valid, Any_vector_el_count, udiv.
  destruct (Z.eqb_spec el_size 0) as [-> | _]; [congruence |].
  simpl.
  destruct (negb _ && negb _); [reflexivity |].
  destruct (Z.gtb_spec (vector_size v) (vector_capacity v)); [reflexivity |].
  destruct (Z.gtb_spec (vector_front v) (vector_back v)); [reflexivity |].
  lia.
Qed.

End AdapterFacts.

(** ** The dispatcher *)

Section DispatcherFacts.

Variable P : platform.

Lemma chain_no_match (table : list (kind * string)) (type_name : string)
    (p : blob) (size el_size : Z) (o : outputs) :
  first_match P table type_name = None ->
  CONTAINER_chain P table type_name p size el_size o = Done (false, false, o, []).
Proof.
  induction table as [| [k pat] rest IH]; simpl; [reflexivity |].
  destruct (match_wildcard P type_name pat); [discriminate | exact IH].
Qed.

Lemma chain_match (table : list (kind * string)) (type_name : string)
    (p : blob) (size el_size : Z) (o : outputs) (k : kind) :
  first_match P table type_name = Some k ->
  CONTAINER_chain P table type_name p size el_size o
  = do r <- get_container_info P k p size el_size o;
    let '(v, o', tr) := r in Done (true, v, o', tr).
Proof.
  induction table as [| [k' pat] rest IH]; simpl; [discriminate |].
  destruct (match_wildcard P type_name pat); [| exact IH].
  intros [= ->]. reflexivity.
Qed.

Lemma get_container_info_valid (k : kind) (t : blob) (size el_size : Z)
    (o : outputs) (v : bool) :
  valid P k t el_size = Done v ->
  exists n,
    el_count P k t el_size = Done n /\
    get_container_info P k t size el_size o
    = Done (v, mk_outputs n (stl_iterator_of k) (begin_ k t),
            debug_assert (sizeof_Any P k =? size)
            ++ debug_assert (sizeof_iterator P k <? DEBUG_STL_MAX_ITERATOR_SIZE P)
            ++ [Call_el_count k; Call_begin k; Call_valid k]).
Proof.
  intros Hv. destruct (valid_counts P k t el_size v Hv) as [n Hn].
  exists n. split; [exact Hn |].
  unfold get_container_info. rewrite Hn. simpl. rewrite Hv. reflexivity.
Qed.

(** The outcome of a call whose type name selects the class [k]. *)
Lemma dispatch_selected (wtype_name : list Z) (p : blob) (size el_size : Z)
    (o : outputs) (k : kind) (v : bool) :
  MSC_VER_ge_1400 P = false ->
  first_match P (pattern_table P) (snprintf_ws P wtype_name) = Some k ->
  valid P k p el_size = Done v ->
  exists n,
    el_count P k p el_size = Done n /\
    stl_get_container_info P wtype_name p size el_size o
    = Done (if v then 0 else STL_CNT_INVALID P,
            mk_outputs n (stl_iterator_of k) (begin_ k p),
            debug_assert (sizeof_Any P k =? size)
            ++ debug_assert (sizeof_iterator P k <? DEBUG_STL_MAX_ITERATOR_SIZE P)
            ++ [Call_el_count k; Call_begin k; Call_valid k]).
Proof.
  intros Hguard Hsel Hv.
  destruct (get_container_info_valid k p size el_size o v Hv) as (n & Hn & Hg).
  exists n. split; [exact Hn |].
  unfold stl_get_container_info. rewrite Hguard.
  rewrite (chain_match _ _ _ _ _ _ _ Hsel), Hg. simpl.
  destruct v; reflexivity.
Qed.

(** C1, as amended.  Where the early return for [_MSC_VER >= 1400] is
    compiled in, every call returns -1 and touches neither the object nor
    the out-parameters.  Where it is not: a type name that matches no entry
    of the table gives [STL_CNT_UNKNOWN] without any call on the object; a
    type name that selects an adapter whose [valid] returns false gives
    [STL_CNT_INVALID]; one whose [valid] returns true gives 0. *)
Theorem stl_get_container_info_codes (wtype_name : list Z) (p : blob)
    (size el_size : Z) (o : outputs) :
  let type_name := snprintf_ws P wtype_name in
  let call := stl_get_container_info P wtype_name p size el_size o in
  (MSC_VER_ge_1400 P = true -> call = Done (-1, o, [])) /\
  (MSC_VER_ge_1400 P = false ->
   (first_match P (pattern_table P) type_name = None ->
    call = Done (STL_CNT_UNKNOWN P, o, [])) /\
   (forall k, first_match P (pattern_table P) type_name = Some k ->
    valid P k p el_size = Done false ->
    exists o' tr, call = Done (STL_CNT_INVALID P, o', tr)) /\
   (forall k, first_match P (pattern_table P) type_name = Some k ->
    valid P k p el_size = Done true ->
    exists o' tr, call = Done (0, o', tr))).
Proof.
  intros type_name call. subst type_name call. split.
  - intros Hg. unfold stl_get_container_info. rewrite Hg. reflexivity.
  - intros Hg. repeat split.
    + intros Hnone. unfold stl_get_container_info. rewrite Hg.
      rewrite (chain_no_match _ _ _ _ _ _ Hnone). reflexivity.
    + intros k Hsel Hv.
      destruct (dispatch_selected wtype_name p size el_size o k false Hg Hsel Hv)
        as (n & _ & ->).
      eauto.
    + intros k Hsel Hv.
      destruct (dispatch_selected wtype_name p size el_size o k true Hg Hsel Hv)
        as (n & _ & ->).
      eauto.
Qed.

(** C10.  When the type name selects an adapter and its [valid] returns
    false, the call returns [STL_CNT_INVALID] with the out-parameters
    overwritten: the element count, the step function of the class and the
    begin iterator, each read from the object before [valid] was called on
    it. *)
Theorem invalid_contents_outputs (wtype_name : list Z) (p : blob)
    (size el_size : Z) (o : outputs) (k : kind) :
  MSC_VER_ge_1400 P = false ->
  first_match P (pattern_table P) (snprintf_ws P wtype_name) = Some k ->
  valid P k p el_size = Done false ->
  exists n asserts,
    el_count P k p el_size = Done n /\
    stl_get_container_info P wtype_name p size el_size o
    = Done (STL_CNT_INVALID P,
            mk_outputs n (stl_iterator_of k) (begin_ k p),
            asserts ++ [Call_el_count k; Call_begin k; Call_valid k]) /\
    Forall (fun e => e = Assert_failed) asserts.
Proof.
  intros Hg Hsel Hv.
  destruct (dispatch_selected wtype_name p size el_size o k false Hg Hsel Hv)
    as (n & Hn & Hcall).
  exists n.
  exists (debug_assert (sizeof_Any P k =? size)
          ++ debug_assert (sizeof_iterator P k <? DEBUG_STL_MAX_ITERATOR_SIZE P)).
  split; [exact Hn |]. split.
  - rewrite Hcall. rewrite <- app_assoc. reflexivity.
  - unfold debug_assert.
    destruct (_ =? _); destruct (_ <? _); repeat constructor.
Qed.

End DispatcherFacts.

(** A vector whose size exceeds its capacity. *)
Lemma Any_vector_valid_rejects_witness :
  Any_vector_valid (sample_platform false) nine_in_eight 4 = Done false.
Proof.
  apply Any_vector_valid_rejects; simpl; lia.
Defined.

(** C5, as stated, fails for an element size of zero: [valid] calls
    [el_count] first, which divides by the element size, so for a vector
    that reports nine elements in room for eight the call ends in a
    division by zero and returns nothing, not false. *)
Lemma zero_el_size_vector_valid_faults :
  vector_size nine_in_eight > vector_capacity nine_in_eight /\
  Any_vector_valid (sample_platform false) nine_in_eight 0
    = Fault DivisionByZero /\
  Any_vector_valid (sample_platform false) nine_in_eight 0 <> Done false.
Proof.
  split; [reflexivity |]. split; [reflexivity | discriminate].
Qed.

(** ** Classes that derive from another adapter *)

(** [valid], [el_count] and [begin] of a derived class are its base's. *)
Lemma derived_members (P : platform) (k : kind) (t : blob) (el_size : Z) :
  valid P k t el_size = valid P (base_of k) t el_size /\
  el_count P k t el_size = el_count P (base_of k) t el_size /\
  begin_ k t = begin_ (base_of k) t.
Proof. destruct k; repeat split; reflexivity. Qed.

(** The step function of a class without a specialisation of its own does
    not look at the element size. *)
Lemma primary_template_ignores_el_size (P : platform) (fuel : nat) (k : kind)
    (h : heap) (it : cursor) (e1 e2 : Z) :
  k <> Kvector -> k <> Kdeque -> k <> Kmap ->
  stl_iterator P fuel k h it e1 = stl_iterator P fuel k h it e2.
Proof. destruct k; intros; try congruence; reflexivity. Qed.

(** [Any_set] and [Any_multiset] step alike, as do the hash classes. *)
Lemma multiset_steps_like_set (P : platform) (fuel : nat) (h : heap)
    (it : cursor) (el_size : Z) :
  stl_iterator P fuel Kmultiset h it el_size
  = stl_iterator P fuel Kset h it el_size.
Proof. reflexivity. Qed.

(** Whatever the library's own [operator*] and [operator++] do, the steps
    of [Any_queue] and [Any_deque] cannot agree for every element size:
    the one does not look at it, the other finds element 1 in the first
    block for one-byte elements and in the second for elements of sixteen
    bytes. *)
Lemma queue_step_is_not_deque_step
    (deref : kind -> heap -> cursor -> option Z)
    (incr : kind -> heap -> cursor -> option cursor) (it' : cursor) :
  incr Kdeque deque_heap (Cur_deque 1000 1) = Some it' ->
  ~ (forall el_size : Z,
        stl_iterator (sample_platform_with false deref incr) 8 Kqueue
          deque_heap (Cur_deque 1000 1) el_size
        = stl_iterator (sample_platform_with false deref incr) 8 Kdeque
            deque_heap (Cur_deque 1000 1) el_size).
Proof.
  intros Hincr Hsame.
  pose proof (Hsame 1) as H1. pose proof (Hsame 16) as H16.
  rewrite (primary_template_ignores_el_size _ _ Kqueue _ _ 1 16) in H1
    by discriminate.
  rewrite H16 in H1.
  unfold stl_iterator, stl_iterator_deque in H1.
  cbn [STL_DINKUMWARE sample_platform_with native_incr] in H1.
  rewrite Hincr in H1.
  change (Any_deque_iter_deref (sample_platform_with false deref incr)
            deque_heap (Cur_deque 1000 1) 16) with (@Done Z 4000) in H1.
  change (Any_deque_iter_deref (sample_platform_with false deref incr)
            deque_heap (Cur_deque 1000 1) 1) with (@Done Z 3001) in H1.
  discriminate H1.
Qed.

(** C9, where the code departs from it.  In a Dinkumware build the step
    functions installed for [Any_queue], [Any_stack] and [Any_multimap] are
    instances of the primary template, not the specialisations written for
    [Any_deque] and [Any_map].  For a queue of one-byte elements, element 5
    lies in the first block, at 3005, where the deque's step finds it; the
    queue's and the stack's step look in the second block.  For a multimap
    of four-byte elements the map's step moves from the first node to its
    successor; the multimap's step reads a flag four bytes off and stays. *)
Theorem derived_classes_step_differently :
  stl_iterator (sample_platform false) 8 Kdeque deque_heap (Cur_deque 1000 5) 1
    = Done (3005, Cur_deque 1000 6) /\
  stl_iterator (sample_platform false) 8 Kqueue deque_heap (Cur_deque 1000 5) 1
    = Done (4004, Cur_deque 1000 6) /\
  stl_iterator (sample_platform false) 8 Kstack deque_heap (Cur_deque 1000 5) 1
    = Done (4004, Cur_deque 1000 6) /\
  stl_iterator (sample_platform false) 8 Kmap tree_heap_4 (Cur_map 200) 4
    = Done (212, Cur_map 100) /\
  stl_iterator (sample_platform false) 8 Kmultimap tree_heap_4 (Cur_map 200) 4
    = Done (212, Cur_map 200).
Proof. repeat split; vm_compute; reflexivity. Qed.

(** ** The tree walk of [Any_map::iter::advance] *)

Lemma hd_app_cons (d y : Z) (xs ys : list Z) :
  hd d (xs ++ y :: ys) = hd y xs.
Proof. destruct xs; reflexivity. Qed.

(** Where an element of [xs ++ a :: ys] can lie. *)
Lemma split_cases (xs ys before after : list Z) (a p : Z) :
  xs ++ a :: ys = before ++ p :: after ->
  (exists mid, xs = before ++ p :: mid /\ after = mid ++ a :: ys) \/
  (before = xs /\ p = a /\ after = ys) \/
  (exists mid, before = xs ++ a :: mid /\ ys = mid ++ p :: after).
Proof.
  revert before.
  induction xs as [| x xs IH]; intros before Heq.
  - destruct before as [| b before]; simpl in Heq.
    + injection Heq as -> ->. right; left. auto.
    + injection Heq as -> ->. right; right. exists before. auto.
  - destruct before as [| b before]; simpl in Heq.
    + injection Heq as -> <-. left. exists xs. auto.
    + injection Heq as -> Heq.
      destruct (IH before Heq) as [(mid & -> & ->) | [(-> & -> & ->) | (mid & -> & ->)]].
      * left. exists mid. auto.
      * right; left. auto.
      * right; right. exists mid. auto.
Qed.

Section TreeWalk.

Variable P : platform.
Variable h : heap.
Variables el_size head : Z.

Hypothesis head_is_nil : Any_map_Isnil P h head el_size = Done true.

Lemma root_not_head (parent : Z) (l : tree) (a : Z) (r : tree) :
  laid_out P h el_size head parent (Node l a r) -> a <> head.
Proof.
  intros (Hnil & _) ->. rewrite head_is_nil in Hnil. discriminate.
Qed.

(** The first loop ends on the first node, in order, of the subtree. *)
Lemma leftmost_first (l : tree) :
  forall (a : Z) (r : tree) (parent : Z) (fuel : nat),
    laid_out P h el_size head parent (Node l a r) ->
    (height l < fuel)%nat ->
    leftmost P fuel h el_size a = Done (hd a (inorder l)).
Proof.
  induction l as [| ll IHll la lr _]; intros a r parent fuel Hlay Hfuel;
    (destruct fuel as [| fuel]; [lia |]);
    destruct Hlay as (_ & _ & Hleft & _ & Hl & _); simpl in *.
  - rewrite Hleft. simpl. rewrite head_is_nil. reflexivity.
  - rewrite Hleft. simpl.
    destruct Hl as (Hnil & Hrest). rewrite Hnil. simpl.
    rewrite hd_app_cons.
    apply (IHll la lr a fuel).
    + simpl. exact (conj Hnil Hrest).
    + lia.
Qed.

(** The walk inside a subtree [s], given where the second loop arrives
    when it climbs out of the root of [s]. *)
Lemma advance_in_subtree (s : tree) :
  forall (parent next : Z) (k : nat),
    laid_out P h el_size head parent s ->
    NoDup (inorder s) ->
    (forall fuel, (k < fuel)%nat ->
                  climb P fuel h el_size (root_of head s) = Done next) ->
    forall (before after : list Z) (ptr : Z) (fuel : nat),
      inorder s = before ++ ptr :: after ->
      (k + height s < fuel)%nat ->
      Any_map_iter_advance P fuel h el_size ptr = Done (hd next after).
Proof.
  induction s as [| l IHl a r IHr];
    intros parent next k Hlay Hnd Hclimb before after ptr fuel Hin Hfuel.
  - destruct before; discriminate.
  - pose proof Hlay as (Hnil & Hpar & Hleft & Hright & Hl & Hr).
    simpl in Hin, Hnd, Hfuel, Hclimb.
    apply NoDup_app in Hnd as (Hndl & Hdisj & Hndar).
    apply NoDup_cons in Hndar as (Hnotin & Hndr).
    destruct (split_cases _ _ _ _ _ _ Hin)
      as [(mid & Hxs & ->) | [(-> & -> & ->) | (mid & -> & Hys)]].
    + (* in the left subtree: climbing out of it stops at [a] *)
      rewrite hd_app_cons.
      apply (IHl a a O Hl Hndl) with (before := before); [| exact Hxs | lia].
      intros fuel' Hfuel'. destruct fuel' as [| fuel']; [lia |].
      destruct l as [| ll la lr]; [destruct before; discriminate |].
      pose proof Hl as (_ & Hparl & _). simpl.
      rewrite Hparl. simpl. rewrite Hnil. simpl. rewrite Hright. simpl.
      destruct (Z.eqb_spec la (root_of head r)) as [Heq | _]; [| reflexivity].
      exfalso. destruct r as [| rl ra rr]; simpl in Heq.
      * apply (root_not_head a ll la lr); [exact Hl | exact Heq].
      * apply (Hdisj la).
        -- simpl. apply elem_of_app. right. left.
        -- right. rewrite Heq. simpl. apply elem_of_app. right. left.
    + (* the root of the subtree *)
      unfold Any_map_iter_advance. rewrite Hnil. simpl. rewrite Hright. simpl.
      destruct r as [| rl ra rr]; simpl.
      * rewrite head_is_nil. simpl. apply Hclimb. lia.
      * destruct Hr as (Hnilr & Hrest). rewrite Hnilr. simpl.
        rewrite hd_app_cons.
        apply (leftmost_first rl ra rr a fuel).
        -- simpl. exact (conj Hnilr Hrest).
        -- simpl in Hfuel. lia.
    + (* in the right subtree: climbing out of it goes on from [a] *)
      apply (IHr a next (S k) Hr Hndr) with (before := mid); [| exact Hys | lia].
      intros fuel' Hfuel'. destruct fuel' as [| fuel']; [lia |].
      destruct r as [| rl ra rr]; [destruct mid; discriminate |].
      pose proof Hr as (_ & Hparr & _). simpl.
      rewrite Hparr. simpl. rewrite Hnil. simpl. rewrite Hright. simpl.
      rewrite Z.eqb_refl. apply Hclimb. lia.
Qed.

End TreeWalk.

(** C4.  [Any_map::iter::advance] reads the sentinel flag of the current
    node first and, when it is set, returns the cursor as it was, whatever
    the links of any node hold.  On the tree of a map it otherwise moves to
    the node that follows in order: the first node of the right subtree
    where there is one, else the ancestor the climb over right-child links
    ends at, which is the head node after the last element. *)
Theorem Any_map_iter_advance_spec (P : platform) (h : heap) (el_size : Z) :
  (forall (fuel : nat) (ptr : Z),
      Any_map_Isnil P h ptr el_size = Done true ->
      Any_map_iter_advance P fuel h el_size ptr = Done ptr) /\
  (forall (head : Z) (t : tree) (before : list Z) (ptr : Z) (after : list Z)
          (fuel : nat),
      map_tree P h el_size head t ->
      inorder t = before ++ ptr :: after ->
      (height t < fuel)%nat ->
      Any_map_iter_advance P fuel h el_size ptr = Done (hd head after)).
Proof.
  split.
  - intros fuel ptr Hnil. unfold Any_map_iter_advance. rewrite Hnil. reflexivity.
  - intros head t before ptr after fuel (Hhead & Hlay & Hnd) Hin Hfuel.
    apply (advance_in_subtree P h el_size head Hhead t head head O Hlay Hnd)
      with (before := before); [| exact Hin | lia].
    intros fuel' Hfuel'. destruct fuel' as [| fuel']; [lia |].
    destruct t as [| l a r]; [destruct before; discriminate |].
    destruct Hlay as (_ & Hpar & _). simpl.
    rewrite Hpar. simpl. rewrite Hhead. reflexivity.
Qed.

Lemma three_nodes_map_tree :
  map_tree (sample_platform false) tree_heap 8 400 three_nodes.
Proof.
  unfold map_tree, three_nodes. simpl. repeat split.
  repeat (apply NoDup_cons; split;
          [intros Hin; repeat (apply elem_of_cons in Hin as [Hin | Hin];
                               [discriminate Hin |]);
           inversion Hin |]).
  apply NoDup_nil. trivial.
Defined.

(** From the first node, 200, the walk reaches the root, 100; from the
    head node it does not move. *)
Lemma Any_map_iter_advance_witness :
  Any_map_iter_advance (sample_platform false) 3 tree_heap 8 400 = Done 400 /\
  Any_map_iter_advance (sample_platform false) 3 tree_heap 8 200 = Done 100.
Proof.
  destruct (Any_map_iter_advance_spec (sample_platform false) tree_heap 8)
    as [Hend Hnext].
  split.
  - apply Hend. reflexivity.
  - apply (Hnext 400 three_nodes [] 200 [100; 300] 3%nat).
    + exact three_nodes_map_tree.
    + reflexivity.
    + simpl. lia.
Defined.

(** ** Instances on the sample build *)

Lemma container_valid_witness :
  container_valid (sample_platform false) 65536 16777217 = false /\
  container_valid (sample_platform false) 3 5 = false /\
  container_valid (sample_platform false) 65536 16777216 = true.
Proof.
  destruct (container_valid_spec (sample_platform false) 65536 16777217)
    as (Hcount & _ & _).
  destruct (container_valid_spec (sample_platform false) 3 5)
    as (_ & Hprobe & _).
  destruct (container_valid_spec (sample_platform false) 65536 16777216)
    as (_ & _ & Hiff).
  split; [apply Hcount; lia |].
  split; [apply Hprobe; reflexivity |].
  apply Hiff. split; [lia | reflexivity].
Defined.

(** Five [int]s seen as elements of two bytes: ten of them. *)
Lemma Any_vector_el_count_witness :
  Any_vector_el_count (sample_platform false) five_ints 2 = Done 10.
Proof.
  destruct (Any_vector_el_count_spec (sample_platform false) five_ints 2)
    as [_ Hexact]; [lia |].
  apply Hexact. simpl. lia.
Defined.

Lemma stl_get_container_info_codes_witness :
  stl_get_container_info (sample_platform true) vector_name
    (vector_blob five_ints) 16 4 no_outputs = Done (-1, no_outputs, []) /\
  stl_get_container_info (sample_platform false) (wide "int")
    (vector_blob five_ints) 16 4 no_outputs = Done (-100, no_outputs, []) /\
  (exists o' tr,
      stl_get_container_info (sample_platform false) vector_name
        (vector_blob nine_in_eight) 16 4 no_outputs = Done (-101, o', tr)) /\
  (exists o' tr,
      stl_get_container_info (sample_platform false) vector_name
        (vector_blob five_ints) 16 4 no_outputs = Done (0, o', tr)).
Proof.
  split; [| split; [| split]].
  - apply (stl_get_container_info_codes (sample_platform true)). reflexivity.
  - apply (stl_get_container_info_codes (sample_platform false));
      vm_compute; reflexivity.
  - apply (proj2 (stl_get_container_info_codes (sample_platform false)
                    vector_name (vector_blob nine_in_eight) 16 4 no_outputs)
                 eq_refl) with (k := Kvector); vm_compute; reflexivity.
  - apply (proj2 (stl_get_container_info_codes (sample_platform false)
                    vector_name (vector_blob five_ints) 16 4 no_outputs)
                 eq_refl) with (k := Kvector); vm_compute; reflexivity.
Defined.

(** C1, as stated, fails where the early return is compiled in: the type
    name selects [Any_vector], its [valid] returns true, and the call
    returns -1, not 0. *)
Lemma guarded_build_returns_minus_one :
  first_match (sample_platform true) (pattern_table (sample_platform true))
    (snprintf_ws (sample_platform true) vector_name) = Some Kvector /\
  valid (sample_platform true) Kvector (vector_blob five_ints) 4 = Done true /\
  stl_get_container_info (sample_platform true) vector_name
    (vector_blob five_ints) 16 4 no_outputs = Done (-1, no_outputs, []) /\
  -1 <> 0.
Proof. repeat split; try (vm_compute; reflexivity). lia. Qed.

Lemma invalid_contents_outputs_witness :
  exists n asserts,
    el_count (sample_platform false) Kvector (vector_blob nine_in_eight) 4 = Done n /\
    stl_get_container_info (sample_platform false) vector_name
      (vector_blob nine_in_eight) 16 4 no_outputs
    = Done (-101,
            mk_outputs n (stl_iterator_of Kvector)
              (begin_ Kvector (vector_blob nine_in_eight)),
            asserts ++ [Call_el_count Kvector; Call_begin Kvector; Call_valid Kvector]) /\
    Forall (fun e => e = Assert_failed) asserts.
Proof.
  apply (invalid_contents_outputs (sample_platform false));
    vm_compute; reflexivity.
Defined.

(* ===================================================================== *)
(** ** The name simplifier                                                *)
(* ===================================================================== *)

(** *** Memory operations *)

Lemma load_mem_op (m : buffer) (i : Z) : mem_op (load m i).
Proof.
  unfold load. destruct (i <? 0); [reflexivity |].
  destruct (m !! Z.to_nat i); simpl; trivial.
Qed.

Lemma load_Done (m : buffer) (i : Z) (c : ascii) :
  load m i = Done c ->
  0 <= i < Z.of_nat (length m) /\ m !! Z.to_nat i = Some c.
Proof.
  unfold load. destruct (Z.ltb_spec i 0); [discriminate |].
  destruct (m !! Z.to_nat i) eqn:Hl; [| discriminate].
  intros [= ->]. apply lookup_lt_Some in Hl as Hlt.
  split; [lia | reflexivity].
Qed.

Lemma store_mem_op (m : buffer) (i : Z) (c : ascii) : mem_op (store m i c).
Proof. unfold store. destruct (_ && _); simpl; trivial. Qed.

Lemma store_Done (m m' : buffer) (i : Z) (c : ascii) :
  store m i c = Done m' ->
  0 <= i < Z.of_nat (length m) /\ m' = <[Z.to_nat i := c]> m /\
  length m' = length m.
Proof.
  unfold store.
  destruct (Z.leb_spec 0 i); destruct (Z.ltb_spec i (Z.of_nat (length m)));
    simpl; try discriminate.
  intros [= <-]. rewrite length_insert. repeat split; lia.
Qed.

Lemma strncmp_mem_op (what : list ascii) :
  forall (m : buffer) (i : Z), mem_op (strncmp_eq m i what).
Proof.
  induction what as [| x what IH]; intros m i; simpl; [trivial |].
  pose proof (load_mem_op m i) as Hl.
  destruct (load m i) as [c | f |]; simpl in *; trivial.
  destruct (Ascii.eqb c x); [apply IH | simpl; trivial].
Qed.

Lemma strcpy_mem_op (what : list ascii) :
  forall (m : buffer) (i : Z), mem_op (strcpy m i what).
Proof.
  induction what as [| x what IH]; intros m i; simpl.
  - apply store_mem_op.
  - pose proof (store_mem_op m i x) as Hs.
    destruct (store m i x) as [m' | f |]; simpl in *; trivial.
Qed.

Lemma strcpy_length (what : list ascii) :
  forall (m m' : buffer) (i : Z),
    strcpy m i what = Done m' -> length m' = length m.
Proof.
  induction what as [| x what IH]; intros m m' i; simpl.
  - intros H. apply store_Done in H. tauto.
  - intros H. apply bind_Done in H as (m1 & H1 & H2).
    apply store_Done in H1 as (_ & _ & Hlen).
    rewrite (IH _ _ _ H2). exact Hlen.
Qed.

(** *** One pass through the loop body *)

Lemma pass_ok_bind {A : Type} (st : sstate) (x : outcome A)
    (k : A -> outcome (sstate + buffer)) :
  mem_op x ->
  (forall a, x = Done a -> pass_ok st (k a)) ->
  pass_ok st (bind x k).
Proof.
  destruct x as [a | f |]; simpl; intros Hx Hk.
  - apply Hk. reflexivity.
  - left. exact Hx.
  - exact Hx.
Qed.

Section Pass.

Variables (m : buffer) (s0 d n : Z).

Local Abbreviation st := (mk_sstate m s0 d n).

Hypothesis src_bound : -2 <= s0.

Lemma REPLACE_ok (what with_ : string) (else_ : outcome (sstate + buffer)) :
  1 <= len what -> n = 0 ->
  pass_ok st else_ ->
  pass_ok st (REPLACE what with_ m (s0 + 1) d n else_).
Proof.
  intros Hlen Hn Helse. unfold REPLACE.
  apply pass_ok_bind; [apply strncmp_mem_op |].
  intros [|] _; [| exact Helse].
  apply pass_ok_bind; [apply strcpy_mem_op |].
  intros m' Hcpy. simpl. rewrite (strcpy_length _ _ _ _ Hcpy). lia.
Qed.

Lemma STRIP_ok (what : string) (else_ : outcome (sstate + buffer)) :
  1 <= len what -> n = 0 ->
  pass_ok st else_ ->
  pass_ok st (STRIP what m (s0 + 1) d n else_).
Proof.
  intros Hlen Hn Helse. unfold STRIP.
  apply pass_ok_bind; [apply strncmp_mem_op |].
  intros [|] _; [| exact Helse].
  simpl. lia.
Qed.

Lemma strip_template_ok (what : string) (else_ : outcome (sstate + buffer)) :
  1 <= len what ->
  pass_ok st else_ ->
  pass_ok st (strip_template what m (s0 + 1) d else_).
Proof.
  intros Hlen Helse. unfold strip_template.
  apply pass_ok_bind; [apply strncmp_mem_op |].
  intros [|] _; [| exact Helse].
  apply pass_ok_bind.
  - destruct (s0 + 1 =? 0); simpl; trivial.
    pose proof (load_mem_op m (s0 + 1 - 1)) as Hl.
    destruct (load m (s0 + 1 - 1)) as [c | f |]; simpl in *; trivial.
    destruct (Ascii.eqb c ","); simpl; trivial.
  - intros d' _. simpl. lia.
Qed.

Lemma copy_ok (c : ascii) :
  n = 0 ->
  pass_ok st (do m' <- store m d c; continue_ m' (s0 + 1) (d + 1) n).
Proof.
  intros Hn. apply pass_ok_bind; [apply store_mem_op |].
  intros m' Hst. apply store_Done in Hst as (_ & _ & Hlen).
  simpl. lia.
Qed.

Lemma body_ok : 0 <= n <= s0 + 2 -> pass_ok st (body st).
Proof.
  intros Hn. unfold body. simpl mem; simpl src; simpl dst; simpl nesting.
  apply pass_ok_bind; [apply load_mem_op |].
  intros c Hc. apply load_Done in Hc as (Hrange & _).
  destruct (Ascii.eqb c NUL).
  { apply pass_ok_bind; [apply store_mem_op |].
    intros m' Hst. apply store_Done in Hst as (Hd & -> & Hlen).
    simpl. split; [exact Hlen |].
    apply list_lookup_insert_eq. lia. }
  destruct (Z.eqb_spec n 0) as [Hz | Hnz]; simpl negb; cbv iota.
  2:{ destruct (Ascii.eqb c "<").
      { destruct (Z.eqb_spec n INT_MAX); simpl; [right; repeat split; lia | lia]. }
      destruct (Ascii.eqb c ">").
      { destruct (Z.leb_spec 0 (n - 1)); simpl; lia. }
      simpl. lia. }
  apply pass_ok_bind; [apply strncmp_mem_op |].
  intros [|] _.
  { apply pass_ok_bind.
    - destruct (s0 + 1 =? 0); simpl; trivial.
      pose proof (load_mem_op m (s0 + 1 - 1)) as Hl.
      destruct (load m (s0 + 1 - 1)) as [p | f |]; simpl in *; trivial.
      destruct (Ascii.eqb p " "); simpl; trivial.
      pose proof (store_mem_op m d " ") as Hs.
      destruct (store m d " "); simpl in *; trivial.
    - intros [m' d'] Hmd. simpl.
      assert (length m' = length m) as ->; [| lia].
      destruct (s0 + 1 =? 0); [injection Hmd as <- <-; reflexivity |].
      apply bind_Done in Hmd as (p & _ & Hmd).
      destruct (Ascii.eqb p " "); [injection Hmd as <- <-; reflexivity |].
      apply bind_Done in Hmd as (m1 & Hs & Hmd).
      injection Hmd as <- <-. apply store_Done in Hs. tauto. }
  repeat (first
    [ apply REPLACE_ok; [vm_compute; discriminate | exact Hz |]
    | apply STRIP_ok; [vm_compute; discriminate | exact Hz |]
    | apply strip_template_ok; [vm_compute; discriminate |]
    | apply copy_ok; exact Hz
    | match goal with
      | |- pass_ok _ (if negb (Ascii.eqb ?c ?x) then _ else _) =>
          destruct (Ascii.eqb c x); simpl negb; cbv iota
      end ]).
Qed.

End Pass.

(** *** The loop *)

(** The loop never runs out of passes, never fails an assertion, keeps the
    length of the memory and, where it returns, leaves a NUL in it. *)
Lemma simplify_loop_ok (fuel : nat) :
  forall st0 : sstate,
    0 <= nesting st0 <= src st0 + 2 ->
    (1 <= fuel)%nat ->
    Z.of_nat (length (mem st0)) - src st0 - 1 < Z.of_nat fuel ->
    match simplify_loop fuel st0 with
    | Done m' => length m' = length (mem st0) /\ exists i, m' !! i = Some NUL
    | Fault f =>
        f = OutOfBounds \/
        (f = SignedOverflow /\ INT_MAX <= Z.of_nat (length (mem st0)))
    | OutOfFuel => False
    end.
Proof.
  induction fuel as [| fuel IH]; intros [m s0 d n] Hn Hfuel Hmeasure; [lia |].
  simpl in Hn, Hmeasure. simpl simplify_loop.
  pose proof (body_ok m s0 d n ltac:(lia) Hn) as Hpass.
  destruct (body (mk_sstate m s0 d n)) as [[st' | m'] | f |] eqn:Hbody;
    simpl in *.
  - destruct Hpass as (Hsrc & Hlen & Hn').
    unfold body in Hbody. apply bind_Done in Hbody as (c & Hc & _).
    apply load_Done in Hc as (Hrange & _). simpl in Hrange.
    specialize (IH st' Hn' ltac:(lia) ltac:(lia)).
    rewrite Hlen in IH. exact IH.
  - destruct Hpass as (Hlen & Hnul). split; [exact Hlen | eauto].
  - destruct Hpass as [-> | (-> & Hmax & Hlt)]; [left; reflexivity |].
    right. split; [reflexivity | lia].
  - exact Hpass.
Qed.

Lemma stl_simplify_name_ok (name : buffer) :
  match stl_simplify_name name with
  | Done out => length out = length name /\ exists i, out !! i = Some NUL
  | Fault f =>
      f = OutOfBounds \/ (f = SignedOverflow /\ INT_MAX <= Z.of_nat (length name))
  | OutOfFuel => False
  end.
Proof.
  apply (simplify_loop_ok (S (length name)) (mk_sstate name (-1) 0 0));
    simpl; lia.
Qed.

(** *** C strings *)

Lemma cstring_nul_free (m : buffer) : nul_free (cstring m) = true.
Proof.
  induction m as [| c m IH]; simpl; [reflexivity |].
  destruct (Ascii.eqb c NUL) eqn:Hc; simpl; [reflexivity |].
  rewrite Hc. exact IH.
Qed.

(** A buffer with a NUL in it is its C string, the NUL, and a rest. *)
Lemma cstring_split (m : buffer) (i : nat) :
  m !! i = Some NUL -> exists rest, m = cstring m ++ NUL :: rest.
Proof.
  revert i. induction m as [| c m IH]; intros i Hi; [discriminate |].
  simpl. destruct (Ascii.eqb_spec c NUL) as [-> | Hc].
  - exists m. reflexivity.
  - destruct i as [| i]; simpl in Hi; [congruence |].
    destruct (IH i Hi) as [rest Hrest].
    exists rest. simpl. congruence.
Qed.

(** *** Prefixes *)

Lemma has_prefix_trans (t : list ascii) :
  forall pat x : list ascii,
    has_prefix t pat = true -> has_prefix pat x = true -> has_prefix t x = true.
Proof.
  induction t as [| a t IH]; intros pat x Ht Hp; [destruct x; reflexivity |].
  destruct pat as [| b pat]; [discriminate |].
  destruct x as [| c x]; [discriminate |].
  simpl in *.
  apply andb_true_iff in Ht as (Hba & Ht).
  apply andb_true_iff in Hp as (Hcb & Hp).
  apply Ascii.eqb_eq in Hba, Hcb. subst.
  rewrite Ascii.eqb_refl. simpl. exact (IH _ _ Ht Hp).
Qed.

Lemma has_prefix_before_nul (t : list ascii) :
  forall s rest : list ascii,
    nul_free t = true ->
    has_prefix t (s ++ NUL :: rest) = true -> has_prefix t s = true.
Proof.
  induction t as [| a t IH]; intros s rest Hnf Hp; [destruct s; reflexivity |].
  unfold nul_free in Hnf. cbn [forallb] in Hnf.
  apply andb_true_iff in Hnf as (Ha & Hnf).
  destruct s as [| c s]; cbn [app has_prefix] in *.
  - apply andb_true_iff in Hp as (Hp & _).
    apply Ascii.eqb_eq in Hp. subst a.
    rewrite Ascii.eqb_refl in Ha. discriminate.
  - apply andb_true_iff in Hp as (Hc & Hp).
    rewrite Hc. simpl. exact (IH _ _ Hnf Hp).
Qed.

(** The comparison, on a buffer with a terminator ahead, tells whether the
    pattern is a prefix of what lies at the offset. *)
Lemma strncmp_eq_at (pat : list ascii) :
  forall pre s rest : list ascii,
    nul_free pat = true ->
    strncmp_eq (pre ++ s ++ NUL :: rest) (Z.of_nat (length pre)) pat
    = Done (has_prefix pat (s ++ NUL :: rest)).
Proof.
  induction pat as [| a pat IH]; intros pre s rest Hnf; cbn [strncmp_eq].
  - destruct (s ++ NUL :: rest); reflexivity.
  - unfold nul_free in Hnf. cbn [forallb] in Hnf.
    apply andb_true_iff in Hnf as (Ha & Hnf).
    unfold load.
    destruct (Z.ltb_spec (Z.of_nat (length pre)) 0); [lia |].
    rewrite Nat2Z.id.
    destruct s as [| c s]; simpl app.
    + rewrite list_lookup_middle by reflexivity. cbn [bind has_prefix].
      destruct (Ascii.eqb_spec NUL a) as [<- | _]; [| reflexivity].
      rewrite Ascii.eqb_refl in Ha. discriminate.
    + rewrite list_lookup_middle by reflexivity. cbn [bind has_prefix].
      destruct (Ascii.eqb c a); [| reflexivity]. cbn [andb].
      specialize (IH (pre ++ [c]) s rest Hnf).
      rewrite <- app_assoc in IH. simpl in IH.
      rewrite length_app in IH. simpl in IH.
      replace (Z.of_nat (length pre) + 1) with (Z.of_nat (length pre + 1)) by lia.
      exact IH.
Qed.

Lemma triggers_nul_free :
  forallb (fun t => nul_free (chars t)) triggers = true.
Proof. reflexivity. Qed.

(** A pattern that begins with one of the triggers is not found where no
    trigger is. *)
Lemma untriggered_miss (pat : string) (s rest : list ascii) :
  existsb (fun t => has_prefix (chars t) (chars pat)) triggers = true ->
  triggered s = false ->
  has_prefix (chars pat) (s ++ NUL :: rest) = false.
Proof.
  intros Hpat Hs.
  destruct (has_prefix (chars pat) (s ++ NUL :: rest)) eqn:Hp; [| reflexivity].
  apply existsb_exists in Hpat as (t & Ht & Htp).
  assert (triggered s = true) as Hyes; [| congruence].
  unfold triggered. apply existsb_exists. exists t. split; [exact Ht |].
  apply has_prefix_before_nul with (rest := rest).
  - pose proof triggers_nul_free as Hnf.
    rewrite forallb_forall in Hnf. exact (Hnf t Ht).
  - exact (has_prefix_trans _ _ _ Htp Hp).
Qed.

(** *** Strings without a trigger *)

Section Untriggered.

Variables (m pre cs rest : list ascii).

Hypothesis layout : m = pre ++ cs ++ NUL :: rest.

Lemma miss_at (pat : string) :
  nul_free (chars pat) = true ->
  existsb (fun t => has_prefix (chars t) (chars pat)) triggers = true ->
  triggered cs = false ->
  strncmp_eq m (Z.of_nat (length pre)) (chars pat) = Done false.
Proof.
  intros Hnf Hpat Hcs. rewrite layout.
  rewrite (strncmp_eq_at _ _ _ _ Hnf).
  rewrite (untriggered_miss _ _ _ Hpat Hcs). reflexivity.
Qed.

Lemma load_at (c : ascii) (s : list ascii) :
  cs = c :: s -> load m (Z.of_nat (length pre)) = Done c.
Proof.
  intros ->. unfold load.
  destruct (Z.ltb_spec (Z.of_nat (length pre)) 0); [lia |].
  rewrite Nat2Z.id, layout. simpl app.
  rewrite list_lookup_middle by reflexivity. reflexivity.
Qed.

Lemma load_terminator :
  cs = [] -> load m (Z.of_nat (length pre)) = Done NUL.
Proof.
  intros ->. unfold load.
  destruct (Z.ltb_spec (Z.of_nat (length pre)) 0); [lia |].
  rewrite Nat2Z.id, layout. simpl app.
  rewrite list_lookup_middle by reflexivity. reflexivity.
Qed.

(** Writing back the character that is there changes nothing. *)
Lemma store_same (c : ascii) :
  load m (Z.of_nat (length pre)) = Done c ->
  store m (Z.of_nat (length pre)) c = Done m.
Proof.
  intros Hl. apply load_Done in Hl as (Hrange & Hc).
  unfold store.
  destruct (Z.leb_spec 0 (Z.of_nat (length pre))); [| lia].
  destruct (Z.ltb_spec (Z.of_nat (length pre)) (Z.of_nat (length m))); [| lia].
  simpl. rewrite (list_insert_id _ _ _ Hc). reflexivity.
Qed.

(** Where no trigger begins, a pass copies the character onto itself. *)
Lemma body_copy (c : ascii) (s : list ascii) :
  cs = c :: s ->
  Ascii.eqb c NUL = false ->
  triggered cs = false ->
  body (mk_sstate m (Z.of_nat (length pre) - 1) (Z.of_nat (length pre)) 0)
  = Done (inl (mk_sstate m (Z.of_nat (length pre))
                 (Z.of_nat (length pre) + 1) 0)).
Proof.
  intros Hcs Hc Htrig. unfold body.
  cbn [mem src dst nesting].
  replace (Z.of_nat (length pre) - 1 + 1) with (Z.of_nat (length pre)) by lia.
  pose proof (load_at c s Hcs) as Hload.
  rewrite Hload. cbn [bind]. rewrite Hc.
  change (negb (0 =? 0)) with false. cbv iota.
  unfold REPLACE, STRIP, strip_template.
  repeat (rewrite miss_at by (reflexivity || exact Htrig); cbn [bind]).
  destruct (Ascii.eqb c "s"); cbn [negb];
    repeat (rewrite miss_at by (reflexivity || exact Htrig); cbn [bind]);
    rewrite (store_same c Hload); reflexivity.
Qed.

End Untriggered.

(** The loop over a string without a NUL and without a trigger leaves the
    memory as it is. *)
Lemma simplify_loop_untriggered (cs : list ascii) :
  forall (pre rest : list ascii) (fuel : nat),
    nul_free cs = true ->
    trigger_free cs = true ->
    (length cs < fuel)%nat ->
    simplify_loop fuel
      (mk_sstate (pre ++ cs ++ NUL :: rest)
         (Z.of_nat (length pre) - 1) (Z.of_nat (length pre)) 0)
    = Done (pre ++ cs ++ NUL :: rest).
Proof.
  induction cs as [| c s IH]; intros pre rest fuel Hnf Hfree Hfuel;
    (destruct fuel as [| fuel]; [simpl in Hfuel; lia |]).
  - cbn [simplify_loop]. unfold body. cbn [mem src dst nesting].
    replace (Z.of_nat (length pre) - 1 + 1) with (Z.of_nat (length pre)) by lia.
    pose proof (load_terminator _ pre [] rest eq_refl eq_refl) as Hload.
    rewrite Hload. cbn [bind]. rewrite Ascii.eqb_refl.
    rewrite (store_same _ pre NUL Hload). reflexivity.
  - unfold nul_free in Hnf. cbn [forallb] in Hnf.
    apply andb_true_iff in Hnf as (Hc & Hnf).
    apply negb_true_iff in Hc.
    cbn [trigger_free] in Hfree.
    apply andb_true_iff in Hfree as (Htrig & Hfree).
    apply negb_true_iff in Htrig.
    cbn [simplify_loop].
    rewrite (body_copy _ pre (c :: s) rest eq_refl c s eq_refl Hc Htrig).
    cbn [bind].
    specialize (IH (pre ++ [c]) rest fuel Hnf Hfree ltac:(simpl in Hfuel; lia)).
    rewrite length_app in IH. simpl length in IH.
    replace (Z.of_nat (length pre + 1) - 1) with (Z.of_nat (length pre)) in IH by lia.
    replace (Z.of_nat (length pre + 1)) with (Z.of_nat (length pre) + 1) in IH by lia.
    rewrite <- app_assoc in IH. exact IH.
Qed.

(** The simplifier leaves a string without a trigger as it is. *)
Lemma untriggered_fixed (cs rest : list ascii) :
  nul_free cs = true ->
  trigger_free cs = true ->
  stl_simplify_name (cs ++ NUL :: rest) = Done (cs ++ NUL :: rest).
Proof.
  intros Hnf Hfree. unfold stl_simplify_name.
  apply (simplify_loop_untriggered cs [] rest _ Hnf Hfree).
  rewrite length_app. simpl. lia.
Qed.

(** C8, as amended.  Applied to an output of its own in which none of the
    texts it acts on occurs ("::_Node", "unsigned short", "unsigned int",
    "unsigned __int64", ",0> ", "std::"), the simplifier returns that output
    unchanged. *)
Theorem simplify_twice_untriggered (name out : list ascii) :
  stl_simplify_name name = Done out ->
  trigger_free (cstring out) = true ->
  stl_simplify_name out = Done out.
Proof.
  intros Hrun Hfree.
  pose proof (stl_simplify_name_ok name) as Hok. rewrite Hrun in Hok.
  destruct Hok as (_ & i & Hnul).
  destruct (cstring_split out i Hnul) as [rest Hsplit].
  pose proof (untriggered_fixed (cstring out) rest
                (cstring_nul_free out) Hfree) as Hfixed.
  rewrite <- Hsplit in Hfixed. exact Hfixed.
Qed.

Lemma simplify_twice_untriggered_witness :
  stl_simplify_name
    (chars "map<int >" ++ NUL
       :: chars "nt,std::less<int>,std::allocator<int> >" ++ [NUL])
  = Done (chars "map<int >" ++ NUL
            :: chars "nt,std::less<int>,std::allocator<int> >" ++ [NUL]).
Proof.
  apply (simplify_twice_untriggered
           (c_str "std::map<int,std::less<int>,std::allocator<int> >"));
    vm_compute; reflexivity.
Defined.

(** C8, as stated, fails: the first pass joins the two sides of a removed
    "std::" into "unsigned int", which the second pass rewrites. *)
Lemma simplify_not_idempotent :
  simplified "unsigned std::int" = Done "unsigned int"%string /\
  simplified_twice "unsigned std::int" = Done "uint"%string.
Proof. split; vm_compute; reflexivity. Qed.

(** *** Discarding

    Once the loop discards, it stops discarding at the bracket that
    matches, however deep the brackets in between are nested, and writes
    nothing on the way. *)
Lemma discard_to_matching (s : list ascii) :
  forall (pre rest : list ascii) (k d : Z) (j : nat),
    matching k s = Some j ->
    1 <= k ->
    nul_free s = true ->
    k + Z.of_nat (length s) < INT_MAX ->
    passes (S j) (mk_sstate (pre ++ s ++ rest) (Z.of_nat (length pre) - 1) d k)
    = Done (inl (mk_sstate (pre ++ s ++ rest)
                   (Z.of_nat (length pre) + Z.of_nat j) d 0)).
Proof.
  induction s as [| c s IH]; intros pre rest k d j Hmatch Hk Hnf Hlen;
    [discriminate |].
  unfold nul_free in Hnf. cbn [forallb] in Hnf.
  apply andb_true_iff in Hnf as (Hc & Hnf). apply negb_true_iff in Hc.
  cbn [length] in Hlen.
  assert (forall n' : Z,
             1 <= n' -> n' + Z.of_nat (length s) < INT_MAX ->
             forall j' : nat, matching n' s = Some j' ->
             passes (S j')
               (mk_sstate (pre ++ (c :: s) ++ rest)
                  (Z.of_nat (length pre) - 1 + 1) d n')
             = Done (inl (mk_sstate (pre ++ (c :: s) ++ rest)
                            (Z.of_nat (length pre) + Z.of_nat (S j')) d 0)))
    as Hnext.
  { intros n' Hn' Hlen' j' Hj'.
    specialize (IH (pre ++ [c]) rest n' d j' Hj' Hn' Hnf Hlen').
    rewrite length_app in IH. simpl length in IH.
    rewrite <- app_assoc in IH. simpl app in IH. simpl app.
    replace (Z.of_nat (length pre) - 1 + 1)
      with (Z.of_nat (length pre + 1) - 1) by lia.
    rewrite IH. do 3 f_equal. lia. }
  cbn [passes]. unfold body at 1. cbn [mem src dst nesting].
  assert (load (pre ++ (c :: s) ++ rest) (Z.of_nat (length pre) - 1 + 1)
          = Done c) as Hload.
  { unfold load.
    destruct (Z.ltb_spec (Z.of_nat (length pre) - 1 + 1) 0); [lia |].
    replace (Z.to_nat (Z.of_nat (length pre) - 1 + 1)) with (length pre) by lia.
    simpl app. rewrite list_lookup_middle by reflexivity. reflexivity. }
  rewrite Hload. cbn [bind]. rewrite Hc.
  destruct (Z.eqb_spec k 0) as [| _]; [lia |]. cbn [negb].
  cbn [matching] in Hmatch.
  destruct (Ascii.eqb c "<").
  - destruct (Z.eqb_spec k INT_MAX); [lia |].
    destruct (matching (k + 1) s) as [j' |] eqn:Hj'; [| discriminate].
    injection Hmatch as <-. cbn [continue_ bind].
    apply Hnext; [lia | lia | exact Hj'].
  - destruct (Ascii.eqb c ">").
    + destruct (Z.leb_spec 0 (k - 1)); [| lia].
      destruct (Z.eqb_spec k 1) as [-> | Hk1].
      * injection Hmatch as <-. cbn [continue_ bind passes].
        do 3 f_equal. lia.
      * destruct (matching (k - 1) s) as [j' |] eqn:Hj'; [| discriminate].
        injection Hmatch as <-. cbn [continue_ bind].
        apply Hnext; [lia | lia | exact Hj'].
    + destruct (matching k s) as [j' |] eqn:Hj'; [| discriminate].
      injection Hmatch as <-. cbn [continue_ bind].
      apply Hnext; [lia | lia | exact Hj'].
Qed.

(** *** Where the hand-written branches overstep

    [REPLACE] and [STRIP] add the length of the pattern less one to [src],
    as the loop's own [++src] supplies the last step.  The branches for
    ["::_Node"], ["std::allocator<"] and ["std::less<"] add the whole length,
    so the character behind the pattern is passed over unread. *)

(** C6, where the code departs from it.  In ["A<std::less<>,B>C"] the
    branch for ["std::less<"] leaves [src] on the bracket that closes the
    argument list, with [nesting] 1; the next pass reads the comma behind
    it, and the counter returns to 0 only at the bracket that closes
    [A<...>]: [",B>"] is discarded with the argument.  By the same step
    [">::_Node>"] loses its second bracket. *)
Theorem discard_passes_matching_bracket :
  passes 3 (mk_sstate less_empty (-1) 0 0)
    = Done (inl (mk_sstate less_empty 12 2 1)) /\
  less_empty !! 12%nat = Some ">"%char /\
  matching 1 (drop 12 less_empty) = Some 0%nat /\
  passes 4 (mk_sstate less_empty (-1) 0 0)
    = Done (inl (mk_sstate less_empty 13 2 1)) /\
  passes 6 (mk_sstate less_empty (-1) 0 0)
    = Done (inl (mk_sstate less_empty 15 2 0)) /\
  simplified "A<std::less<>,B>C" = Done "A<C"%string /\
  simplified "A<std::less<int>,B>C" = Done "A<,B>C"%string /\
  simplified ">::_Node>" = Done "> "%string.
Proof. repeat split; vm_compute; reflexivity. Qed.

(** C7, where the code departs from it.  On a name that ends in
    ["::_Node"] the branch leaves [src] on the terminator and the next pass
    reads the byte behind it.  With the remains of an older string there,
    the string of length 7 becomes one of length 10 and a NUL is written at
    offset 10; with the buffer ending at the terminator the read is out of
    bounds.  And where the comma before ["std::allocator<"] belongs to a
    pattern stripped at the very start, [dst--] leaves [dst] before the
    buffer, where the next character is then written. *)
Theorem simplify_oversteps_terminator :
  strlen node_then_stale = 7 /\
  node_then_stale !! 10%nat = Some "2"%char /\
  stl_simplify_name node_then_stale
    = Done (chars "0123456789" ++ [NUL] ++ chars "3456789" ++ [NUL]) /\
  strlen (chars "0123456789" ++ [NUL] ++ chars "3456789" ++ [NUL]) = 10 /\
  stl_simplify_name (c_str "x::_Node") = Fault OutOfBounds /\
  stl_simplify_name (c_str "std::allocator<") = Fault OutOfBounds /\
  passes 2 (mk_sstate traits_first (-1) 0 0)
    = Done (inl (mk_sstate traits_first 38 (-1) 1)) /\
  stl_simplify_name traits_first = Fault OutOfBounds.
Proof. repeat split; vm_compute; reflexivity. Qed.

(** *** Names on which the rewrite stays in place

    On a name that does not end in the pattern of a hand-written branch,
    every read is of the name or its terminator and every write falls on a
    character already read. *)

Lemma has_prefix_app (t x : list ascii) : has_prefix t (t ++ x) = true.
Proof.
  induction t as [| a t IH]; simpl; [destruct x; reflexivity |].
  rewrite Ascii.eqb_refl. exact IH.
Qed.

Lemma has_prefix_split (t : list ascii) :
  forall x : list ascii, has_prefix t x = true -> exists y, x = t ++ y.
Proof.
  induction t as [| a t IH]; intros x H; [exists x; reflexivity |].
  destruct x as [| c x]; [discriminate |]. cbn [has_prefix] in H.
  apply andb_true_iff in H as (Hc & H). apply Ascii.eqb_eq in Hc. subst c.
  destruct (IH x H) as [y ->]. exists y. reflexivity.
Qed.

Lemma strlen_le (m : buffer) :
  forall i : nat, m !! i = Some NUL -> (length (cstring m) <= i)%nat.
Proof.
  induction m as [| c m IH]; intros i Hi; [discriminate |].
  simpl. destruct (Ascii.eqb_spec c NUL) as [-> | Hc]; simpl; [lia |].
  destruct i as [| i]; simpl in Hi; [congruence |].
  specialize (IH i Hi). lia.
Qed.

(** A write into the first part of the memory leaves the second alone. *)
Lemma store_within (A B : list ascii) (i : Z) (c : ascii) (m' : buffer) :
  store (A ++ B) i c = Done m' ->
  i < Z.of_nat (length A) ->
  exists A', m' = A' ++ B /\ length A' = length A.
Proof.
  intros Hst Hi. apply store_Done in Hst as (Hr & -> & _).
  exists (<[Z.to_nat i := c]> A). split.
  - apply insert_app_l. lia.
  - apply length_insert.
Qed.

Lemma strcpy_within (w : list ascii) :
  forall (A B : list ascii) (i : Z) (m' : buffer),
    strcpy (A ++ B) i w = Done m' ->
    i + Z.of_nat (length w) < Z.of_nat (length A) ->
    exists A', m' = A' ++ B /\ length A' = length A.
Proof.
  induction w as [| c w IH]; intros A B i m' Hcpy Hi; cbn [strcpy] in Hcpy.
  - apply (store_within A B i NUL m' Hcpy). lia.
  - apply bind_Done in Hcpy as (m1 & Hst & Hcpy). cbn [length] in Hi.
    destruct (store_within A B i c m1 Hst ltac:(lia)) as (A1 & -> & Hlen1).
    destruct (IH A1 B (i + 1) m' Hcpy ltac:(lia)) as (A' & -> & Hlen').
    exists A'. split; [reflexivity | lia].
Qed.

Lemma chars_length (t : string) : length (chars t) = String.length t.
Proof. induction t as [| a t IH]; simpl; [reflexivity | now rewrite IH]. Qed.

Lemma in_place_bind {A : Type} (s rest : list ascii) (x : outcome A)
    (k : A -> outcome (sstate + buffer)) :
  (forall a, x = Done a -> in_place_result s rest (k a)) ->
  in_place_result s rest (bind x k).
Proof.
  destruct x as [a | f |]; simpl; intros Hk; [| exact I | exact I].
  apply Hk. reflexivity.
Qed.

Section InPlace.

Variables (s rest : list ascii).

Hypothesis s_nul_free : nul_free s = true.
Hypothesis s_ends_well : ends_hand_written s = false.

(** The state before a pass that reads a character of the name. *)
Variables (m pre front cs : list ascii) (s0 d n : Z).

Hypothesis layout : m = pre ++ cs ++ NUL :: rest.
Hypothesis split : s = front ++ cs.
Hypothesis same_length : length pre = length front.
Hypothesis at_src : s0 + 1 = Z.of_nat (length pre).
Hypothesis dst_behind : d <= Z.of_nat (length pre).

Lemma cs_nul_free : nul_free cs = true.
Proof.
  rewrite split in s_nul_free. unfold nul_free in *.
  rewrite forallb_app in s_nul_free.
  apply andb_true_iff in s_nul_free. tauto.
Qed.

(** A pattern found at [src] is the beginning of what is unread. *)
Lemma found_at (what : string) :
  nul_free (chars what) = true ->
  exists b : bool,
    strncmp_eq m (s0 + 1) (chars what) = Done b /\
    (b = true -> exists cs', cs = chars what ++ cs').
Proof.
  intros Hnf. rewrite at_src, layout, (strncmp_eq_at _ _ _ _ Hnf).
  eexists. split; [reflexivity |].
  intros Hp. apply has_prefix_split.
  exact (has_prefix_before_nul _ _ _ Hnf Hp).
Qed.

(** Behind the pattern of a hand-written branch the name goes on. *)
Lemma goes_on (what : string) (cs' : list ascii) :
  In what hand_written ->
  cs = chars what ++ cs' ->
  exists (x : ascii) (cs'' : list ascii), cs' = x :: cs''.
Proof.
  intros Hin Hcs. destruct cs' as [| x cs'']; [| eauto].
  exfalso. rewrite app_nil_r in Hcs.
  assert (ends_hand_written s = true) as Hyes; [| congruence].
  unfold ends_hand_written. apply existsb_exists.
  exists what. split; [exact Hin |].
  rewrite split, Hcs, rev_app_distr. apply has_prefix_app.
Qed.

Lemma REPLACE_in_place (what with_ : string)
    (else_ : outcome (sstate + buffer)) :
  nul_free (chars what) = true ->
  (String.length with_ < String.length what)%nat ->
  in_place_result s rest else_ ->
  in_place_result s rest (REPLACE what with_ m (s0 + 1) d n else_).
Proof.
  intros Hnf Hshort Helse. unfold REPLACE.
  destruct (found_at what Hnf) as (b & -> & Hb). cbn [bind].
  destruct b; [| exact Helse].
  destruct (Hb eq_refl) as [cs' Hcs].
  apply in_place_bind. intros m' Hcpy.
  rewrite layout, Hcs in Hcpy.
  replace (pre ++ (chars what ++ cs') ++ NUL :: rest)
    with ((pre ++ chars what) ++ cs' ++ NUL :: rest) in Hcpy
    by (now rewrite <- !app_assoc).
  apply strcpy_within in Hcpy as (A' & -> & Hlen).
  2:{ rewrite length_app, !chars_length. lia. }
  rewrite length_app, chars_length in Hlen.
  exists A', (front ++ chars what), cs'. cbn [mem src dst].
  repeat split.
  - rewrite split, Hcs. now rewrite <- app_assoc.
  - rewrite length_app, chars_length. lia.
  - unfold len. lia.
  - unfold len. lia.
Qed.

Lemma STRIP_in_place (what : string) (else_ : outcome (sstate + buffer)) :
  nul_free (chars what) = true ->
  (1 <= String.length what)%nat ->
  in_place_result s rest else_ ->
  in_place_result s rest (STRIP what m (s0 + 1) d n else_).
Proof.
  intros Hnf Hlen Helse. unfold STRIP.
  destruct (found_at what Hnf) as (b & -> & Hb). cbn [bind].
  destruct b; [| exact Helse].
  destruct (Hb eq_refl) as [cs' Hcs].
  exists (pre ++ chars what), (front ++ chars what), cs'. cbn [mem src dst].
  repeat split.
  - rewrite layout, Hcs. now rewrite <- !app_assoc.
  - rewrite split, Hcs. now rewrite <- app_assoc.
  - rewrite !length_app. lia.
  - rewrite length_app, chars_length. unfold len. lia.
  - rewrite length_app. lia.
Qed.

Lemma strip_template_in_place (what : string)
    (else_ : outcome (sstate + buffer)) :
  nul_free (chars what) = true ->
  In what hand_written ->
  in_place_result s rest else_ ->
  in_place_result s rest (strip_template what m (s0 + 1) d else_).
Proof.
  intros Hnf Hin Helse. unfold strip_template.
  destruct (found_at what Hnf) as (b & -> & Hb). cbn [bind].
  destruct b; [| exact Helse].
  destruct (Hb eq_refl) as [cs' Hcs].
  destruct (goes_on what cs' Hin Hcs) as (x & cs'' & ->).
  apply in_place_bind. intros d' Hd'.
  assert (d' <= d) as Hle.
  { destruct (s0 + 1 =? 0); [injection Hd' as <-; lia |].
    apply bind_Done in Hd' as (p & _ & Hd').
    destruct (Ascii.eqb p ","); injection Hd' as <-; lia. }
  exists (pre ++ chars what ++ [x]), (front ++ chars what ++ [x]), cs''.
  cbn [continue_ in_place_result mem src dst].
  repeat split.
  - rewrite layout, Hcs. rewrite <- !app_assoc. reflexivity.
  - rewrite split, Hcs. rewrite <- !app_assoc. reflexivity.
  - rewrite !length_app. lia.
  - rewrite !length_app, chars_length. cbn [length]. unfold len. lia.
  - rewrite !length_app. lia.
Qed.

Lemma copy_in_place (c : ascii) (cs' : list ascii) :
  cs = c :: cs' ->
  in_place_result s rest
    (do m' <- store m d c; continue_ m' (s0 + 1) (d + 1) n).
Proof.
  intros Hcs. apply in_place_bind.
  intros m' Hst. rewrite layout, Hcs in Hst.
  replace (pre ++ (c :: cs') ++ NUL :: rest)
    with ((pre ++ [c]) ++ cs' ++ NUL :: rest) in Hst
    by (now rewrite <- app_assoc).
  apply store_within in Hst as (A' & -> & Hlen).
  2:{ rewrite length_app. cbn [length]. lia. }
  rewrite length_app in Hlen. cbn [length] in Hlen.
  exists A', (front ++ [c]), cs'. cbn [continue_ in_place_result mem src dst].
  repeat split.
  - rewrite split, Hcs. now rewrite <- app_assoc.
  - rewrite length_app. cbn [length]. lia.
  - lia.
  - lia.
Qed.

(** A pass that only moves [src] one on. *)
Lemma skip_in_place (c : ascii) (cs' : list ascii) (n' : Z) :
  cs = c :: cs' ->
  in_place_result s rest (continue_ m (s0 + 1) d n').
Proof.
  intros Hcs. exists (pre ++ [c]), (front ++ [c]), cs'.
  cbn [mem src dst]. repeat split.
  - rewrite layout, Hcs. now rewrite <- app_assoc.
  - rewrite split, Hcs. now rewrite <- app_assoc.
  - rewrite !length_app. lia.
  - rewrite length_app. cbn [length]. lia.
  - rewrite length_app. lia.
Qed.

End InPlace.

Section InPlaceLoop.

Variables (s rest : list ascii).

Hypothesis s_nul_free : nul_free s = true.
Hypothesis s_ends_well : ends_hand_written s = false.

Lemma body_in_place (st : sstate) :
  in_place s rest st -> in_place_result s rest (body st).
Proof.
  destruct st as [m s0 d n].
  intros (pre & front & cs & Hlay & Hsplit & Hlen & Hsrc & Hdst).
  cbn [mem src dst] in *.
  unfold body. cbn [mem src dst nesting].
  assert (cs = [] \/ exists c cs', cs = c :: cs') as [Hcs | (c & cs' & Hcs)]
    by (destruct cs; eauto).
  - (* the terminator *)
    rewrite Hsrc, (load_terminator m pre cs rest Hlay Hcs). cbn [bind].
    rewrite Ascii.eqb_refl.
    apply in_place_bind. intros m' Hst.
    pose proof (store_Done _ _ _ _ Hst) as (Hd & Hins & _).
    rewrite Hlay, Hcs in Hst.
    replace (pre ++ [] ++ NUL :: rest) with ((pre ++ [NUL]) ++ rest) in Hst
      by (now rewrite <- app_assoc).
    apply store_within in Hst as (A' & HA' & HlenA).
    2:{ rewrite length_app. cbn [length]. lia. }
    rewrite length_app in HlenA. cbn [length] in HlenA.
    rewrite Hcs, app_nil_r in Hsplit.
    exists A', (Z.to_nat d). repeat split.
    + exact HA'.
    + rewrite Hsplit. lia.
    + rewrite Hsplit. lia.
    + rewrite Hins. apply list_lookup_insert_eq. lia.
  - (* a character of the name *)
    rewrite Hsrc, (load_at m pre cs rest Hlay c cs' Hcs), <- Hsrc. cbn [bind].
    pose proof (cs_nul_free s s_nul_free front cs Hsplit) as Hnf.
    rewrite Hcs in Hnf. unfold nul_free in Hnf. cbn [forallb] in Hnf.
    apply andb_true_iff in Hnf as (Hc & _). apply negb_true_iff in Hc.
    rewrite Hc.
    destruct (n =? 0); cbn [negb].
    2:{ destruct (Ascii.eqb c "<").
        { destruct (n =? INT_MAX); [exact I |].
          eapply skip_in_place; eassumption. }
        destruct (Ascii.eqb c ">").
        { destruct (0 <=? n - 1); [| exact I].
          eapply skip_in_place; eassumption. }
        eapply skip_in_place; eassumption. }
    destruct (found_at rest m pre cs s0 Hlay Hsrc "::_Node" eq_refl)
      as (b & -> & Hb).
    cbn [bind]. destruct b.
    { destruct (Hb eq_refl) as [cs2 Hcs2].
      destruct (goes_on s s_ends_well front cs Hsplit "::_Node" cs2
                  ltac:(left; reflexivity) Hcs2) as (x & cs3 & ->).
      apply in_place_bind. intros [m' d'] Hmd.
      assert (exists A', m' = A' ++ cs3 ++ NUL :: rest /\
                         length A' = (length pre + 8)%nat /\
                         d' <= d + 1) as (A' & -> & HlenA & Hd').
      { assert (m = (pre ++ chars "::_Node" ++ [x]) ++ cs3 ++ NUL :: rest)
          as Hm by (rewrite Hlay, Hcs2, <- !app_assoc; reflexivity).
        assert (length (pre ++ chars "::_Node" ++ [x]) = (length pre + 8)%nat)
          as HlenA by (rewrite !length_app; reflexivity).
        destruct (s0 + 1 =? 0).
        { injection Hmd as <- <-. eexists. split; [exact Hm |]. split; [exact HlenA | lia]. }
        apply bind_Done in Hmd as (p & _ & Hmd).
        destruct (Ascii.eqb p " ").
        { injection Hmd as <- <-. eexists. split; [exact Hm |]. split; [exact HlenA | lia]. }
        apply bind_Done in Hmd as (m1 & Hst & Hmd). injection Hmd as <- <-.
        rewrite Hm in Hst.
        apply store_within in Hst as (A' & -> & HlenA'); [| lia].
        exists A'. split; [reflexivity |]. split; [lia | lia]. }
      exists A', (front ++ chars "::_Node" ++ [x]), cs3.
      cbn [continue_ fst snd mem src dst]. repeat split.
      - rewrite Hsplit, Hcs2, <- !app_assoc. reflexivity.
      - rewrite HlenA, !length_app. cbn [length chars list_ascii_of_string]. lia.
      - lia.
      - lia. }
    repeat (first
      [ eapply REPLACE_in_place; try eassumption;
        [reflexivity | cbn; lia |]
      | eapply STRIP_in_place; try eassumption;
        [reflexivity | cbn; lia |]
      | eapply strip_template_in_place; try eassumption;
        [reflexivity | cbn; tauto |]
      | eapply copy_in_place; eassumption
      | match goal with
        | |- in_place_result _ _ (if negb (Ascii.eqb ?c ?x) then _ else _) =>
            destruct (Ascii.eqb c x); cbn [negb]
        end ]).
Qed.

Lemma simplify_loop_in_place (fuel : nat) :
  forall st : sstate,
    in_place s rest st ->
    match simplify_loop fuel st with
    | Done out => rewritten s rest out
    | _ => True
    end.
Proof.
  induction fuel as [| fuel IH]; intros st Hst; [exact I |].
  cbn [simplify_loop].
  pose proof (body_in_place st Hst) as Hbody.
  destruct (body st) as [[st' | out] | f |]; cbn in *; trivial.
  apply IH. exact Hbody.
Qed.

End InPlaceLoop.

(** On a name that ends in none of the three patterns the function
    returns, unless a write would fall before the buffer, and then the
    result is a string no longer than the name, within the place of the
    name, and the memory behind the terminator is as it was. *)
Lemma stl_simplify_name_in_place (s rest : list ascii) :
  nul_free s = true ->
  ends_hand_written s = false ->
  Z.of_nat (length (s ++ NUL :: rest)) < INT_MAX ->
  match stl_simplify_name (s ++ NUL :: rest) with
  | Done out =>
      strlen out <= Z.of_nat (length s) /\
      drop (S (length s)) out = rest /\
      length out = length (s ++ NUL :: rest)
  | Fault f => f = OutOfBounds
  | OutOfFuel => False
  end.
Proof.
  intros Hnf Hends Hsmall.
  pose proof (stl_simplify_name_ok (s ++ NUL :: rest)) as Hok.
  pose proof (simplify_loop_in_place s rest Hnf Hends
                (S (length (s ++ NUL :: rest)))
                (mk_sstate (s ++ NUL :: rest) (-1) 0 0)) as Hplace.
  fold (stl_simplify_name (s ++ NUL :: rest)) in Hplace.
  destruct (stl_simplify_name (s ++ NUL :: rest)) as [out | f |].
  - destruct Hok as (Hlen & _).
    destruct Hplace as (A & i & -> & HlenA & Hi & Hnul).
    + exists [], [], s. cbn [mem src dst length app]. repeat split; lia.
    + repeat split.
      * unfold strlen. pose proof (strlen_le _ _ Hnul). lia.
      * rewrite <- HlenA. apply drop_app_length.
      * exact Hlen.
  - destruct Hok as [-> | (-> & Hbig)]; [reflexivity | lia].
  - exact Hok.
Qed.

(* ===================================================================== *)
(** * Part III: further properties                                        *)
(* ===================================================================== *)

(** ** The early out *)

(** A pattern that begins with another character than the one at [src]
    is not found there. *)
Lemma strncmp_first_miss (m : buffer) (s : Z) (c x : ascii)
    (pat : list ascii) :
  load m s = Done c ->
  Ascii.eqb c x = false ->
  strncmp_eq m s (x :: pat) = Done false.
Proof. intros Hl Hc. cbn [strncmp_eq]. rewrite Hl. cbn [bind]. now rewrite Hc. Qed.

(** X1.  The early out changes nothing: for every state, the pass with
    [else if(c != 's')] does what the pass without it would do, as every
    pattern tested behind it begins with [s]. *)
Theorem early_out_sound (st : sstate) :
  body st = body_without_early_out st.
Proof.
  destruct st as [m s0 d n]. unfold body, body_without_early_out.
  cbn [mem src dst nesting].
  destruct (load m (s0 + 1)) as [c | f |] eqn:Hload; cbn [bind]; try reflexivity.
  destruct (Ascii.eqb c NUL); [reflexivity |].
  destruct (negb (n =? 0)); [reflexivity |].
  destruct (strncmp_eq m (s0 + 1) (chars "::_Node")) as [[|] | f |];
    cbn [bind]; try reflexivity.
  unfold REPLACE, STRIP, strip_template.
  repeat match goal with
         | |- bind ?x _ = bind ?x _ =>
             destruct x as [[|] | ? |]; cbn [bind]; try reflexivity
         end.
  destruct (Ascii.eqb c "s") eqn:Hs; cbn [negb]; [reflexivity |].
  cbn [chars list_ascii_of_string].
  repeat (rewrite (strncmp_first_miss m (s0 + 1) c "s" _ Hload Hs); cbn [bind]).
  reflexivity.
Qed.

(** ** No write reaches what is still to be read *)

Lemma store_elsewhere (m m' : buffer) (i : Z) (c : ascii) (j : nat) :
  store m i c = Done m' -> j <> Z.to_nat i -> m' !! j = m !! j.
Proof.
  intros Hst Hj. apply store_Done in Hst as (_ & -> & _).
  apply list_lookup_insert_ne. congruence.
Qed.

Lemma strcpy_elsewhere (w : list ascii) :
  forall (m m' : buffer) (i : Z) (j : nat),
    strcpy m i w = Done m' ->
    Z.of_nat j < i \/ i + Z.of_nat (length w) < Z.of_nat j ->
    m' !! j = m !! j.
Proof.
  induction w as [| c w IH]; intros m m' i j Hcpy Hj; cbn [strcpy] in Hcpy.
  - pose proof (store_Done _ _ _ _ Hcpy) as (Hr & _).
    apply (store_elsewhere _ _ _ _ _ Hcpy). cbn [length] in Hj. lia.
  - apply bind_Done in Hcpy as (m1 & Hst & Hcpy). cbn [length] in Hj.
    pose proof (store_Done _ _ _ _ Hst) as (Hr & _).
    rewrite (IH _ _ _ _ Hcpy) by lia.
    apply (store_elsewhere _ _ _ _ _ Hst). lia.
Qed.

Lemma unread_intact_bind {A : Type} (name : buffer) (x : outcome A)
    (k : A -> outcome (sstate + buffer)) :
  (forall a, x = Done a -> unread_intact_result name (k a)) ->
  unread_intact_result name (bind x k).
Proof.
  destruct x as [a | f |]; simpl; intros Hk; [| exact I | exact I].
  apply Hk. reflexivity.
Qed.

Section Intact.

Variables (name m : buffer) (s0 d n : Z).

Hypothesis intact : unread_intact name (mk_sstate m s0 d n).

Lemma REPLACE_intact (what with_ : string)
    (else_ : outcome (sstate + buffer)) :
  (String.length with_ + 1 < String.length what)%nat ->
  unread_intact_result name else_ ->
  unread_intact_result name (REPLACE what with_ m (s0 + 1) d n else_).
Proof.
  intros Hshort Helse. destruct intact as (Hs & Hd & Hlen & Hsame).
  cbn [mem src dst] in *. unfold REPLACE.
  apply unread_intact_bind. intros [|] _; [| exact Helse].
  apply unread_intact_bind. intros m' Hcpy.
  unfold len. cbn [continue_ unread_intact_result]. unfold unread_intact.
  cbn [mem src dst]. repeat split; try lia.
  - now rewrite (strcpy_length _ _ _ _ Hcpy).
  - intros i Hi. rewrite (strcpy_elsewhere _ _ _ _ _ Hcpy).
    + apply Hsame. lia.
    + right. rewrite chars_length. lia.
Qed.

Lemma STRIP_intact (what : string) (else_ : outcome (sstate + buffer)) :
  (1 <= String.length what)%nat ->
  unread_intact_result name else_ ->
  unread_intact_result name (STRIP what m (s0 + 1) d n else_).
Proof.
  intros Hlen1 Helse. destruct intact as (Hs & Hd & Hlen & Hsame).
  cbn [mem src dst] in *. unfold STRIP.
  apply unread_intact_bind. intros [|] _; [| exact Helse].
  unfold len. cbn [continue_ unread_intact_result]. unfold unread_intact.
  cbn [mem src dst]. repeat split; try lia.
  intros i Hi. apply Hsame. lia.
Qed.

Lemma strip_template_intact (what : string)
    (else_ : outcome (sstate + buffer)) :
  unread_intact_result name else_ ->
  unread_intact_result name (strip_template what m (s0 + 1) d else_).
Proof.
  intros Helse. destruct intact as (Hs & Hd & Hlen & Hsame).
  cbn [mem src dst] in *. unfold strip_template.
  apply unread_intact_bind. intros [|] _; [| exact Helse].
  apply unread_intact_bind. intros d' Hd'.
  assert (d' <= d) as Hle.
  { destruct (s0 + 1 =? 0); [injection Hd' as <-; lia |].
    apply bind_Done in Hd' as (p & _ & Hd').
    destruct (Ascii.eqb p ","); injection Hd' as <-; lia. }
  unfold len. cbn [continue_ unread_intact_result]. unfold unread_intact.
  cbn [mem src dst]. repeat split; try lia.
  intros i Hi. apply Hsame. lia.
Qed.

Lemma copy_intact (c : ascii) :
  load m (s0 + 1) = Done c ->
  unread_intact_result name
    (do m' <- store m d c; continue_ m' (s0 + 1) (d + 1) n).
Proof.
  intros Hload. destruct intact as (Hs & Hd & Hlen & Hsame).
  cbn [mem src dst] in *.
  apply unread_intact_bind. intros m' Hst.
  pose proof (store_Done _ _ _ _ Hst) as (Hr & Hins & Hlen').
  cbn [continue_ unread_intact_result]. unfold unread_intact.
  cbn [mem src dst]. repeat split; try lia.
  intros i Hi.
  destruct (Nat.eq_dec i (Z.to_nat d)) as [-> | Hne].
  - assert (d = s0 + 1) as -> by lia.
    apply load_Done in Hload as (_ & Hc).
    rewrite Hins, list_lookup_insert_eq by lia.
    rewrite <- Hsame by lia. now rewrite Hc.
  - rewrite (store_elsewhere _ _ _ _ _ Hst Hne). apply Hsame. lia.
Qed.

Lemma body_intact :
  unread_intact_result name (body (mk_sstate m s0 d n)).
Proof.
  pose proof intact as (Hs & Hd & Hlen & Hsame).
  cbn [mem src dst] in *. unfold body. cbn [mem src dst nesting].
  apply unread_intact_bind. intros c Hload.
  destruct (Ascii.eqb c NUL).
  { apply unread_intact_bind. intros m' _. exact I. }
  assert (forall n' : Z,
             unread_intact_result name (continue_ m (s0 + 1) d n')) as Hskip.
  { intros n'. cbn [continue_ unread_intact_result]. unfold unread_intact.
    cbn [mem src dst]. repeat split; try lia.
    intros i Hi. apply Hsame. lia. }
  destruct (negb (n =? 0)).
  { destruct (Ascii.eqb c "<").
    { destruct (n =? INT_MAX); [exact I | apply Hskip]. }
    destruct (Ascii.eqb c ">").
    { destruct (0 <=? n - 1); [apply Hskip | exact I]. }
    apply Hskip. }
  apply unread_intact_bind. intros [|] _.
  { apply unread_intact_bind. intros [m' d'] Hmd.
    assert (length m' = length m /\ d' <= d + 1 /\
            forall i : nat, s0 + 2 <= Z.of_nat i -> m' !! i = m !! i)
      as (Hlen' & Hd' & Hsame').
    { destruct (s0 + 1 =? 0).
      { injection Hmd as <- <-. repeat split; lia. }
      apply bind_Done in Hmd as (p & _ & Hmd).
      destruct (Ascii.eqb p " ").
      { injection Hmd as <- <-. repeat split; lia. }
      apply bind_Done in Hmd as (m1 & Hst & Hmd). injection Hmd as <- <-.
      pose proof (store_Done _ _ _ _ Hst) as (Hr & _ & Hlen1).
      split; [exact Hlen1 |]. split; [lia |].
      intros i Hi. apply (store_elsewhere _ _ _ _ _ Hst). lia. }
    cbn [continue_ unread_intact_result fst snd]. unfold unread_intact.
    cbn [mem src dst]. repeat split; try lia.
    intros i Hi. rewrite Hsame' by lia. apply Hsame. lia. }
  repeat (first
    [ apply REPLACE_intact; [cbn; lia |]
    | apply STRIP_intact; [cbn; lia |]
    | apply strip_template_intact
    | apply copy_intact; exact Hload
    | match goal with
      | |- unread_intact_result _ (if negb (Ascii.eqb ?c ?x) then _ else _) =>
          destruct (Ascii.eqb c x); cbn [negb]
      end ]).
Qed.

End Intact.

(** X2.  At every pass of the loop, whatever the buffer holds, no write
    has reached a character that is still to be read or the one read
    last: the memory from [src] on is what the caller passed, [dst] is at
    most one ahead of [src], and the memory has kept its length.  This is
    what lets the replacement happen in place. *)
Theorem passes_leave_unread_intact (name : buffer) (k : nat) (st : sstate) :
  passes k (mk_sstate name (-1) 0 0) = Done (inl st) ->
  unread_intact name st.
Proof.
  assert (forall (k' : nat) (st0 st' : sstate),
             unread_intact name st0 ->
             passes k' st0 = Done (inl st') -> unread_intact name st') as Hgen.
  { induction k' as [| k' IH]; intros st0 st' H0 Hrun; cbn [passes] in Hrun.
    - injection Hrun as <-. exact H0.
    - apply bind_Done in Hrun as (r & Hbody & Hrun).
      destruct st0 as [m s0 d n].
      pose proof (body_intact name m s0 d n H0) as Hstep.
      rewrite Hbody in Hstep.
      destruct r as [st1 | out]; [| discriminate].
      exact (IH st1 st' Hstep Hrun). }
  apply Hgen. unfold unread_intact. cbn [mem src dst].
  repeat split; try lia.
Qed.

Lemma passes_leave_unread_intact_witness :
  unread_intact (c_str "std::list<unsigned int>")
    (mk_sstate (chars "list<uint" ++ [NUL] ++ chars "unsigned int>" ++ [NUL])
       21 9 0).
Proof.
  apply (passes_leave_unread_intact (c_str "std::list<unsigned int>") 7%nat).
  vm_compute. reflexivity.
Defined.

(** ** What a call of the simplifier can come to *)

(** X3.  On every buffer of fewer than 2^31 - 1 bytes, whatever it holds,
    the loop ends: it neither runs on for ever, nor fails
    [debug_assert(nesting >= 0)], nor overflows [nesting].  Either it
    returns, with the buffer as long as it was and a NUL in it, or it
    stops at an access outside the buffer. *)
Theorem simplify_ends (name : buffer) :
  Z.of_nat (length name) < INT_MAX ->
  (exists (out : buffer) (i : nat),
      stl_simplify_name name = Done out /\
      length out = length name /\ out !! i = Some NUL) \/
  stl_simplify_name name = Fault OutOfBounds.
Proof.
  intros Hsmall. pose proof (stl_simplify_name_ok name) as Hok.
  destruct (stl_simplify_name name) as [out | f |].
  - destruct Hok as (Hlen & i & Hi). left. exists out, i. auto.
  - destruct Hok as [-> | (_ & Hbig)]; [right; reflexivity | lia].
  - contradiction.
Qed.

Lemma simplify_ends_witness :
  (exists (out : buffer) (i : nat),
      stl_simplify_name less_empty = Done out /\
      length out = length less_empty /\ out !! i = Some NUL) \/
  stl_simplify_name less_empty = Fault OutOfBounds.
Proof. apply simplify_ends. vm_compute. reflexivity. Defined.

Lemma cstring_app_nul (cs rest : list ascii) :
  nul_free cs = true -> cstring (cs ++ NUL :: rest) = cs.
Proof.
  induction cs as [| c cs IH]; intros Hnf; simpl.
  - reflexivity.
  - unfold nul_free in Hnf. cbn [forallb] in Hnf.
    apply andb_true_iff in Hnf as (Hc & Hnf). apply negb_true_iff in Hc.
    rewrite Hc, (IH Hnf). reflexivity.
Qed.

(** X4.  A name in which none of the texts the loop acts on occurs
    ("::_Node", "unsigned short", "unsigned int", "unsigned __int64",
    ",0> ", "std::") comes back as it went in, and so does all of the
    buffer. *)
Theorem simplify_leaves_plain_names (s : string) (rest : list ascii) :
  nul_free (chars s) = true ->
  trigger_free (chars s) = true ->
  stl_simplify_name (chars s ++ NUL :: rest) = Done (chars s ++ NUL :: rest) /\
  simplified s = Done s.
Proof.
  intros Hnf Hfree. split.
  - exact (untriggered_fixed (chars s) rest Hnf Hfree).
  - unfold simplified, c_str.
    rewrite (untriggered_fixed (chars s) [] Hnf Hfree). cbn [bind].
    unfold show. rewrite (cstring_app_nul _ _ Hnf).
    unfold chars. now rewrite string_of_list_ascii_of_string.
Qed.

Lemma simplify_leaves_plain_names_witness :
  stl_simplify_name (chars "CStr *" ++ NUL :: chars "stale")
    = Done (chars "CStr *" ++ NUL :: chars "stale") /\
  simplified "CStr *" = Done "CStr *"%string.
Proof. apply simplify_leaves_plain_names; reflexivity. Defined.

(** X5.  On a name that ends in none of "::_Node", "std::allocator<" and
    "std::less<", in a buffer of fewer than 2^31 - 1 bytes, a call that
    returns leaves a string no longer than the name and has written
    nothing behind the name's terminator; a call that does not return has
    stopped at an access outside the buffer. *)
Theorem simplify_stays_in_place (s rest : list ascii) :
  nul_free s = true ->
  ends_hand_written s = false ->
  Z.of_nat (length (s ++ NUL :: rest)) < INT_MAX ->
  (exists out : buffer,
      stl_simplify_name (s ++ NUL :: rest) = Done out /\
      strlen out <= Z.of_nat (length s) /\
      drop (S (length s)) out = rest) \/
  stl_simplify_name (s ++ NUL :: rest) = Fault OutOfBounds.
Proof.
  intros Hnf Hends Hsmall.
  pose proof (stl_simplify_name_in_place s rest Hnf Hends Hsmall) as H.
  destruct (stl_simplify_name (s ++ NUL :: rest)) as [out | f |].
  - left. exists out. tauto.
  - right. now rewrite H.
  - contradiction.
Qed.

Lemma simplify_stays_in_place_witness :
  (exists out : buffer,
      stl_simplify_name
        (chars "std::list<int,std::allocator<int> >" ++ NUL :: chars "stale")
      = Done out /\
      strlen out <= Z.of_nat (length (chars "std::list<int,std::allocator<int> >")) /\
      drop (S (length (chars "std::list<int,std::allocator<int> >"))) out
      = chars "stale") \/
  stl_simplify_name
    (chars "std::list<int,std::allocator<int> >" ++ NUL :: chars "stale")
  = Fault OutOfBounds.
Proof. apply simplify_stays_in_place; vm_compute; reflexivity. Defined.

(** ** Stripping an allocator or a comparator *)

Lemma load_before (pre tail : list ascii) (d : Z) :
  (if Z.of_nat (length pre) =? 0 then Done d
   else do p <- load (pre ++ tail) (Z.of_nat (length pre) - 1);
        if Ascii.eqb p "," then Done (d - 1) else Done d)
  = Done (if comma_before pre then d - 1 else d).
Proof.
  induction pre as [| a pre0 _] using rev_ind; [reflexivity |].
  rewrite length_app. cbn [length].
  destruct (Z.eqb_spec (Z.of_nat (length pre0 + 1)) 0); [lia |].
  unfold load.
  destruct (Z.ltb_spec (Z.of_nat (length pre0 + 1) - 1) 0); [lia |].
  replace (Z.to_nat (Z.of_nat (length pre0 + 1) - 1)) with (length pre0) by lia.
  rewrite <- app_assoc. cbn [app].
  rewrite list_lookup_middle by reflexivity. cbn [bind].
  unfold comma_before. rewrite last_snoc.
  destruct (Ascii.eqb a ","); reflexivity.
Qed.

(** X6.  Where "std::allocator<" or "std::less<" stands at [src] outside
    a discarded argument, the loop takes back a comma written just before
    (if the character before the pattern is one), passes over the pattern
    and the one character [x] behind it, and discards up to the bracket
    that matches when the brackets are counted from the character after
    [x], however deep they nest.  It writes nothing on the way and goes
    on behind that bracket with [nesting] 0. *)
Theorem template_argument_discarded (what : string) (pre arg rest : list ascii)
    (x : ascii) (d : Z) (j : nat) :
  In what discarding ->
  nul_free arg = true ->
  matching 1 arg = Some j ->
  1 + Z.of_nat (length arg) < INT_MAX ->
  passes (S (S j))
    (mk_sstate (pre ++ (chars what ++ x :: arg) ++ NUL :: rest)
       (Z.of_nat (length pre) - 1) d 0)
  = Done (inl (mk_sstate (pre ++ (chars what ++ x :: arg) ++ NUL :: rest)
                 (Z.of_nat (length pre) + len what + 1 + Z.of_nat j)
                 (if comma_before pre then d - 1 else d) 0)).
Proof.
  intros Hin Hnf Hmatch Hlen.
  set (m := pre ++ (chars what ++ x :: arg) ++ NUL :: rest).
  assert (m = (pre ++ chars what ++ [x]) ++ arg ++ NUL :: rest) as Hm2.
  { unfold m. rewrite <- !app_assoc. cbn [app]. reflexivity. }
  assert (passes (S j)
            (mk_sstate m (Z.of_nat (length pre) + len what)
               (if comma_before pre then d - 1 else d) 1)
          = Done (inl (mk_sstate m
                         (Z.of_nat (length pre) + len what + 1 + Z.of_nat j)
                         (if comma_before pre then d - 1 else d) 0)))
    as Hdiscard.
  { pose proof (discard_to_matching arg (pre ++ chars what ++ [x])
                  (NUL :: rest) 1 (if comma_before pre then d - 1 else d) j
                  Hmatch ltac:(lia) Hnf Hlen) as Hd.
    rewrite <- Hm2 in Hd.
    rewrite !length_app, chars_length in Hd. cbn [length] in Hd.
    unfold len.
    replace (Z.of_nat (length pre) + Z.of_nat (String.length what))
      with (Z.of_nat (length pre + (String.length what + 1)) - 1) by lia.
    rewrite Hd. do 3 f_equal. lia. }
  assert (forall pat : list ascii,
             nul_free pat = true ->
             strncmp_eq m (Z.of_nat (length pre)) pat
             = Done (has_prefix pat ((chars what ++ x :: arg) ++ NUL :: rest)))
    as Hcmp.
  { intros pat Hpat. unfold m. apply strncmp_eq_at. exact Hpat. }
  change (passes (S (S j)) ?st) with
    (do r <- body st;
     match r with
     | inl st' => passes (S j) st'
     | inr m' => Done (inr m')
     end).
  unfold body. cbn [mem src dst nesting].
  replace (Z.of_nat (length pre) - 1 + 1) with (Z.of_nat (length pre)) by lia.
  unfold REPLACE, STRIP, strip_template.
  destruct Hin as [<- | [<- | []]].
  - rewrite (load_at m pre (chars "std::allocator<" ++ x :: arg) rest eq_refl
               "s"%char (chars "td::allocator<" ++ x :: arg) eq_refl).
    cbn [bind]. change (Ascii.eqb "s" NUL) with false.
    change (negb (0 =? 0)) with false.
    change (negb (Ascii.eqb "s" "s")) with false. cbv iota.
    repeat (rewrite Hcmp by reflexivity;
            match goal with
            | |- context [has_prefix ?a ?b] =>
                first [change (has_prefix a b) with false
                      | change (has_prefix a b) with true]
            end; cbn [bind]).
    unfold m at 1. rewrite load_before. fold m. cbn [bind continue_].
    exact Hdiscard.
  - rewrite (load_at m pre (chars "std::less<" ++ x :: arg) rest eq_refl
               "s"%char (chars "td::less<" ++ x :: arg) eq_refl).
    cbn [bind]. change (Ascii.eqb "s" NUL) with false.
    change (negb (0 =? 0)) with false.
    change (negb (Ascii.eqb "s" "s")) with false. cbv iota.
    repeat (rewrite Hcmp by reflexivity;
            match goal with
            | |- context [has_prefix ?a ?b] =>
                first [change (has_prefix a b) with false
                      | change (has_prefix a b) with true]
            end; cbn [bind]).
    unfold m at 1. rewrite load_before. fold m. cbn [bind continue_].
    exact Hdiscard.
Qed.

(** In "vector<X,std::allocator<Y<Z> > >": the comma is taken back and
    scanning goes on behind the bracket that closes the allocator. *)
Lemma template_argument_discarded_witness :
  passes 6
    (mk_sstate (chars "vector<X," ++ (chars "std::allocator<" ++ "Y"%char :: chars "<Z> > >")
                  ++ NUL :: []) 8 9 0)
  = Done (inl (mk_sstate
                 (chars "vector<X," ++ (chars "std::allocator<" ++ "Y"%char :: chars "<Z> > >")
                    ++ NUL :: []) 29 8 0)).
Proof.
  exact (template_argument_discarded "std::allocator<" (chars "vector<X,")
           (chars "<Z> > >") [] "Y" 9 4%nat
           (or_introl eq_refl) eq_refl eq_refl eq_refl).
Defined.

(** ** The adapters at their edges *)

Section AdapterEdges.

Variable P : platform.

Local Abbreviation bits := (size_t_bits P).

(** X7.  A vector or a deque that reports no elements is not put to the
    basic validator: whatever [debug_is_bogus_pointer] says of its front,
    the vector is valid if its size does not exceed its capacity and its
    front does not lie behind its back, and the deque is valid if, in a
    Dinkumware build, its offset and size fit its blocks. *)
Theorem empty_sequences_pass :
  (forall (v : vector_view) (el_size : Z),
      el_size <> 0 ->
      vector_size v = 0 ->
      0 <= vector_capacity v ->
      vector_front v <= vector_back v ->
      Any_vector_valid P v el_size = Done true) /\
  (forall (d : deque_view) (el_size : Z),
      deque_size d = 0 ->
      (STL_DINKUMWARE P = true ->
       el_size <> 0 /\
       deque_Myoff d < Z.max (16 / el_size) 1 /\
       deque_Mysize d <= wrap bits (deque_Mapsize d * Z.max (16 / el_size) 1)) ->
      Any_deque_valid P d el_size = Done true).
Proof.
  split.
  - intros v el_size Hel Hsize Hcap Hfb.
    unfold Any_vector_valid, Any_vector_el_count, udiv, wrap.
    destruct (Z.eqb_spec el_size 0); [contradiction |].
    rewrite Hsize. cbn [bind Z.mul].
    rewrite Zmod_0_l, Zdiv_0_l.
    cbn [Z.eqb negb andb].
    destruct (Z.gtb_spec 0 (vector_capacity v)); [lia |].
    destruct (Z.gtb_spec (vector_front v) (vector_back v)); [lia |].
    reflexivity.
  - intros d el_size Hsize Hdink.
    unfold Any_deque_valid, Any_deque_el_count. cbn [bind].
    rewrite Hsize. cbn [Z.eqb negb andb].
    destruct (STL_DINKUMWARE P); [| reflexivity].
    destruct (Hdink eq_refl) as (Hel & Hoff & Hfit).
    unfold el_per_bucket, udiv.
    destruct (Z.eqb_spec el_size 0); [contradiction |]. cbn [bind].
    destruct (Z.geb_spec (deque_Myoff d) (Z.max (16 / el_size) 1)); [lia |].
    destruct (Z.gtb_spec (deque_Mysize d)
                (wrap bits (deque_Mapsize d * Z.max (16 / el_size) 1))); [lia |].
    reflexivity.
Qed.

(** X8.  In a Dinkumware build, for elements of more than sixteen bytes
    [(16/el_size)-1] wraps round to the largest [size_t], and
    [Any_basic_string::valid] returns false for every string whose
    reserve is below that. *)
Theorem big_elements_fail_strings (s : string_view) (el_size : Z) :
  STL_DINKUMWARE P = true ->
  0 < bits ->
  16 < el_size ->
  string_Myres s < 2 ^ bits - 1 ->
  Any_basic_string_valid P s el_size = Done false.
Proof.
  intros Hdink Hbits Hel Hres.
  unfold Any_basic_string_valid, Any_basic_string_el_count. cbn [bind].
  destruct (negb _); [reflexivity |].
  rewrite Hdink. unfold udiv.
  destruct (Z.eqb_spec el_size 0); [lia |]. cbn [bind].
  rewrite Z.div_small by lia.
  assert (wrap bits (0 - 1) = 2 ^ bits - 1) as ->.
  { unfold wrap. assert (0 < 2 ^ bits) by (apply Z.pow_pos_nonneg; lia).
    rewrite <- (Z.mod_add (0 - 1) 1 (2 ^ bits)) by lia.
    replace (0 - 1 + 1 * 2 ^ bits) with (2 ^ bits - 1) by lia.
    apply Z.mod_small. lia. }
  destruct (Z.ltb_spec (string_Myres s) (2 ^ bits - 1)); [reflexivity | lia].
Qed.

(** X9.  [Any_deque::get_item]: with [MAX(16/el_size, 1)] elements to a
    block, element [i] lies in the block whose address is entry
    [i / MAX(16/el_size, 1)] of the map, [(i mod MAX(16/el_size, 1)) *
    el_size] bytes in. *)
Theorem get_item_address (h : heap) (d i el_size map bucket : Z) :
  0 < el_size ->
  0 <= i < 2 ^ bits ->
  deque_Map h d = Some map ->
  load_ptr h (wrap bits (map + i / Z.max (16 / el_size) 1 * sizeof_ptr P))
    = Some bucket ->
  Any_deque_get_item P h d i el_size
    = Done (wrap bits (bucket + i mod Z.max (16 / el_size) 1 * el_size)).
Proof.
  intros Hel Hi Hmap Hbucket.
  unfold Any_deque_get_item, el_per_bucket, udiv.
  rewrite Hmap. cbn [rd bind].
  destruct (Z.eqb_spec el_size 0); [lia |]. cbn [bind].
  set (epb := Z.max (16 / el_size) 1) in *.
  assert (0 < epb) as Hepb by (unfold epb; lia).
  rewrite Hbucket. cbn [rd bind].
  assert (wrap bits (i - wrap bits (i / epb * epb)) = i mod epb) as ->;
    [| reflexivity].
  pose proof (Z.mul_div_le i epb Hepb) as Hle.
  pose proof (Z.div_pos i epb ltac:(lia) Hepb) as Hq.
  pose proof (Z.mod_pos_bound i epb Hepb) as Hr.
  rewrite (Z.mod_eq i epb) in * by lia.
  unfold wrap.
  replace (i / epb * epb) with (epb * (i / epb)) by lia.
  rewrite (Z.mod_small (epb * (i / epb))) by lia.
  apply Z.mod_small. lia.
Qed.

(** X10.  On a name that selects [Any_vector], an element size of zero
    ends the call in a division by zero: no result code comes back. *)
Theorem zero_el_size_divides (wtype_name : list Z) (p : blob) (size : Z)
    (o : outputs) :
  MSC_VER_ge_1400 P = false ->
  first_match P (pattern_table P) (snprintf_ws P wtype_name) = Some Kvector ->
  stl_get_container_info P wtype_name p size 0 o = Fault DivisionByZero.
Proof.
  intros Hguard Hsel. unfold stl_get_container_info. rewrite Hguard.
  rewrite (chain_match _ _ _ _ _ _ _ _ Hsel). reflexivity.
Qed.

Lemma container_valid_count (front el_count_ : Z) :
  container_valid P front el_count_ = true -> el_count_ <= 2 ^ 24.
Proof.
  unfold container_valid. change (2 ^ 24) with 16777216.
  destruct (Z.gtb_spec el_count_ 16777216); [discriminate | lia].
Qed.

(** Every adapter that reports an object valid has counted at most 2^24
    elements in it. *)
Lemma valid_count_bound (k : kind) (t : blob) (el_size n : Z) :
  valid P k t el_size = Done true ->
  el_count P k t el_size = Done n ->
  n <= 2 ^ 24.
Proof.
  assert (forall c : view,
             Any_plain_valid P c el_size = Done true ->
             Any_plain_el_count c el_size = Done n -> n <= 2 ^ 24) as Hplain.
  { intros c Hv Hn. unfold Any_plain_valid, Any_plain_el_count in *.
    injection Hn as <-. cbn [bind] in Hv.
    destruct (container_valid P (v_first c) (v_size c)) eqn:Hcv;
      [| discriminate].
    exact (container_valid_count _ _ Hcv). }
  destruct k; cbn [valid el_count]; intros Hv Hn; try (eapply Hplain; eassumption).
  all: try (unfold Any_deque_valid, Any_deque_el_count in *;
            injection Hn as <-; cbn [bind] in Hv;
            destruct (Z.eqb_spec (deque_size (as_deque t)) 0) as [-> | _];
            [change (2 ^ 24) with 16777216; lia |];
            destruct (container_valid P (deque_front (as_deque t))
                        (deque_size (as_deque t))) eqn:Hcv;
            [exact (container_valid_count _ _ Hcv) | discriminate]).
  all: try (unfold Any_map_valid, Any_map_el_count in *;
            injection Hn as <-; cbn [bind] in Hv;
            destruct (container_valid P (map_first (as_map t))
                        (map_size (as_map t))) eqn:Hcv;
            [exact (container_valid_count _ _ Hcv) | discriminate]).
  - unfold Any_vector_valid in Hv. rewrite Hn in Hv. cbn [bind] in Hv.
    destruct (Z.eqb_spec n 0) as [-> | _];
      [change (2 ^ 24) with 16777216; lia |].
    destruct (container_valid P (vector_front (as_vector t)) n) eqn:Hcv;
      [exact (container_valid_count _ _ Hcv) | discriminate].
  - unfold Any_basic_string_valid, Any_basic_string_el_count in *.
    injection Hn as <-. cbn [bind] in Hv.
    destruct (container_valid P (string_c_str (as_basic_string t))
                (string_size (as_basic_string t))) eqn:Hcv;
      [exact (container_valid_count _ _ Hcv) | discriminate].
Qed.

(** X11.  Where the error codes of [debug_stl.h] are not zero and the
    early return is not compiled in, a call that returns 0 has matched a
    pattern of the table, its adapter has reported the object valid, and
    the out-parameters are the adapter's: an element count of at most
    2^24, the step function of the class, and the begin iterator. *)
Theorem success_outputs (wtype_name : list Z) (p : blob) (size el_size : Z)
    (o o' : outputs) (tr : list event) :
  MSC_VER_ge_1400 P = false ->
  STL_CNT_UNKNOWN P <> 0 ->
  STL_CNT_INVALID P <> 0 ->
  stl_get_container_info P wtype_name p size el_size o = Done (0, o', tr) ->
  exists (k : kind) (n : Z),
    first_match P (pattern_table P) (snprintf_ws P wtype_name) = Some k /\
    valid P k p el_size = Done true /\
    el_count P k p el_size = Done n /\
    n <= 2 ^ 24 /\
    o' = mk_outputs n (stl_iterator_of k) (begin_ k p).
Proof.
  intros Hguard Hunk Hinv Hcall.
  unfold stl_get_container_info in Hcall. rewrite Hguard in Hcall.
  destruct (first_match P (pattern_table P) (snprintf_ws P wtype_name))
    as [k |] eqn:Hsel.
  - rewrite (chain_match _ _ _ _ _ _ _ _ Hsel) in Hcall.
    unfold get_container_info in Hcall.
    destruct (el_count P k p el_size) as [n | |] eqn:Hn; try discriminate.
    cbn [bind] in Hcall.
    destruct (valid P k p el_size) as [v | |] eqn:Hv; try discriminate.
    cbn [bind] in Hcall.
    destruct v; cbn [negb] in Hcall; [| congruence].
    injection Hcall as <- _.
    exists k, n.
    split; [reflexivity |]. split; [exact Hv |]. split; [exact Hn |].
    split; [exact (valid_count_bound k p el_size n Hv Hn) | reflexivity].
  - rewrite (chain_no_match _ _ _ _ _ _ _ Hsel) in Hcall.
    cbn [bind negb] in Hcall. congruence.
Qed.

End AdapterEdges.

(** An empty vector as the library leaves it: null pointers, and a back
    that has wrapped round. *)
Lemma empty_sequences_pass_witness :
  Any_vector_valid (sample_platform false)
    (mk_vector_view 0 0 0 4294967292 0) 4 = Done true /\
  Any_deque_valid (sample_platform false)
    (mk_deque_view 0 0 0 0 0 (0, 0)) 4 = Done true.
Proof.
  destruct (empty_sequences_pass (sample_platform false)) as [Hvec Hdeq].
  split.
  - apply Hvec; simpl; lia.
  - apply Hdeq; [reflexivity |]. intros _. vm_compute. repeat split; discriminate.
Defined.

Lemma big_elements_fail_strings_witness :
  Any_basic_string_valid (sample_platform false)
    (mk_string_view 3 65536 15 3 []) 32 = Done false.
Proof.
  apply big_elements_fail_strings; try reflexivity; simpl; lia.
Defined.

Lemma get_item_address_witness :
  Any_deque_get_item (sample_platform false) deque_heap 1000 21 1 = Done 4005.
Proof.
  exact (get_item_address (sample_platform false) deque_heap 1000 21 1 2000 4000
           eq_refl ltac:(split; [lia | reflexivity]) eq_refl eq_refl).
Defined.

Lemma zero_el_size_divides_witness :
  stl_get_container_info (sample_platform false) vector_name
    (vector_blob five_ints) 16 0 no_outputs = Fault DivisionByZero.
Proof.
  apply zero_el_size_divides; vm_compute; reflexivity.
Defined.

Lemma success_outputs_witness :
  exists (k : kind) (n : Z),
    first_match (sample_platform false) (pattern_table (sample_platform false))
      (snprintf_ws (sample_platform false) vector_name) = Some k /\
    valid (sample_platform false) k (vector_blob five_ints) 4 = Done true /\
    el_count (sample_platform false) k (vector_blob five_ints) 4 = Done n /\
    n <= 2 ^ 24 /\
    mk_outputs 5 (stl_iterator_of Kvector) (Cur_vector 65536)
    = mk_outputs n (stl_iterator_of k) (begin_ k (vector_blob five_ints)).
Proof.
  apply (success_outputs (sample_platform false) vector_name
           (vector_blob five_ints) 16 4 no_outputs _
           [Call_el_count Kvector; Call_begin Kvector; Call_valid Kvector]);
    try discriminate; reflexivity.
Defined.

(** ** Stepping through a container *)

Section Stepping.

Variable P : platform.
Variable h : heap.

Local Abbreviation bits := (size_t_bits P).

Local Abbreviation element := (element_address bits).

Lemma vector_steps_from (el_size first : Z) (fuel k : nat) :
  (forall a, native_deref P Kvector h (Cur_vector a) = Some a) ->
  forall c : nat,
    iterate k (fun it => stl_iterator P fuel Kvector h it el_size)
      (Cur_vector (element first el_size c))
    = Done (List.map (element first el_size) (List.seq c k),
            Cur_vector (element first el_size (c + k))).
Proof.
  intros Hderef. induction k as [| k IH]; intros c; cbn [iterate List.seq List.map].
  - now rewrite Nat.add_0_r.
  - unfold stl_iterator, stl_iterator_vector. rewrite Hderef. cbn [rd bind snd fst].
    assert (Any_vector_iter_advance P (element first el_size c) el_size
            = element first el_size (S c)) as ->.
    { unfold Any_vector_iter_advance, element_address, wrap.
      rewrite Zplus_mod_idemp_l. f_equal. lia. }
    specialize (IH (S c)).
    replace (S c + k)%nat with (c + S k)%nat in IH by lia.
    unfold stl_iterator, stl_iterator_vector in IH. rewrite IH.
    reflexivity.
Qed.

(** X12.  Where the library's [&*it] of a vector iterator is the pointer
    it holds, [k] calls of [stl_iterator<Any_vector>] from a cursor at
    [first] return [first], [first + el_size], ..., each [el_size] bytes
    behind the last whatever the size of [int], and leave the cursor [k]
    elements on. *)
Theorem vector_steps (el_size first : Z) (fuel k : nat) :
  (forall a, native_deref P Kvector h (Cur_vector a) = Some a) ->
  0 <= first < 2 ^ bits ->
  iterate k (fun it => stl_iterator P fuel Kvector h it el_size)
    (Cur_vector first)
  = Done (List.map (element first el_size) (List.seq 0 k),
          Cur_vector (element first el_size k)).
Proof.
  intros Hderef Hfirst.
  pose proof (vector_steps_from el_size first fuel k Hderef 0%nat) as H.
  replace (element first el_size 0) with first in H; [exact H |].
  unfold element_address, wrap. rewrite Z.mod_small; lia.
Qed.

Variables (el_size head : Z) (t : tree).

Hypothesis dinkumware : STL_DINKUMWARE P = true.
Hypothesis tree_in_memory : map_tree P h el_size head t.

(** One step on the tree of a map. *)
Lemma advance_next (before after : list Z) (ptr : Z) (fuel : nat) :
  inorder t = before ++ ptr :: after ->
  (height t < fuel)%nat ->
  Any_map_iter_advance P fuel h el_size ptr = Done (hd head after).
Proof.
  destruct tree_in_memory as (Hhead & Hlay & Hnd).
  intros Hin Hfuel.
  apply (advance_in_subtree P h el_size head Hhead t head head O Hlay Hnd)
    with (before := before); [| exact Hin | lia].
  intros fuel' Hfuel'. destruct fuel' as [| fuel']; [lia |].
  destruct t as [| l a r]; [destruct before; discriminate |].
  destruct Hlay as (_ & Hpar & _). simpl.
  rewrite Hpar. simpl. rewrite Hhead. reflexivity.
Qed.

Lemma map_steps_from (value : Z -> Z) (fuel : nat) (after : list Z) :
  (forall ptr, native_deref P Kmap h (Cur_map ptr) = Some (value ptr)) ->
  (height t < fuel)%nat ->
  forall before : list Z,
    inorder t = before ++ after ->
    iterate (length after) (fun it => stl_iterator P fuel Kmap h it el_size)
      (Cur_map (hd head after))
    = Done (List.map value after, Cur_map head).
Proof.
  intros Hderef Hfuel.
  induction after as [| ptr after IH]; intros before Hin; [reflexivity |].
  cbn [length iterate hd List.map].
  unfold stl_iterator at 1. rewrite dinkumware.
  unfold stl_iterator_map. rewrite Hderef. cbn [rd bind].
  rewrite (advance_next before after ptr fuel Hin Hfuel). cbn [bind fst snd].
  rewrite (IH (before ++ [ptr])) by (now rewrite <- app_assoc).
  reflexivity.
Qed.

(** X13.  In a Dinkumware build, on the tree of a map and with fuel
    above its height, as many calls of [stl_iterator<Any_map>] as the map
    has nodes, from a cursor on the first, return the address of each
    node's value once, in order, and leave the cursor on the head node;
    a call there returns the head node's and leaves the cursor where it
    is. *)
Theorem map_steps_in_order (value : Z -> Z) (fuel : nat) :
  (forall ptr, native_deref P Kmap h (Cur_map ptr) = Some (value ptr)) ->
  (height t < fuel)%nat ->
  iterate (length (inorder t))
    (fun it => stl_iterator P fuel Kmap h it el_size)
    (Cur_map (hd head (inorder t)))
  = Done (List.map value (inorder t), Cur_map head) /\
  stl_iterator P fuel Kmap h (Cur_map head) el_size
  = Done (value head, Cur_map head).
Proof.
  intros Hderef Hfuel. split.
  - exact (map_steps_from value fuel (inorder t) Hderef Hfuel [] eq_refl).
  - unfold stl_iterator. rewrite dinkumware.
    unfold stl_iterator_map. rewrite Hderef. cbn [rd bind].
    unfold Any_map_iter_advance.
    destruct tree_in_memory as (Hhead & _). rewrite Hhead. reflexivity.
Qed.

End Stepping.

(** Five elements of two bytes from 0x10000. *)
Lemma vector_steps_witness :
  iterate 5 (fun it => stl_iterator (sample_platform false) 0 Kvector
                         deque_heap it 2) (Cur_vector 65536)
  = Done ([65536; 65538; 65540; 65542; 65544], Cur_vector 65546).
Proof.
  exact (vector_steps (sample_platform false) deque_heap 2 65536 0 5
           (fun a => eq_refl) ltac:(split; [lia | reflexivity])).
Defined.

(** The three nodes in key order, then the head node for good. *)
Lemma map_steps_in_order_witness :
  iterate 3 (fun it => stl_iterator (sample_platform false) 3 Kmap
                         tree_heap it 8) (Cur_map 200)
  = Done ([212; 112; 312], Cur_map 400) /\
  stl_iterator (sample_platform false) 3 Kmap tree_heap (Cur_map 400) 8
  = Done (412, Cur_map 400).
Proof.
  exact (map_steps_in_order (sample_platform false) tree_heap 8 400 three_nodes
           eq_refl three_nodes_map_tree (fun ptr => ptr + 12) 3
           (fun ptr => eq_refl) ltac:(simpl; lia)).
Defined.
